(** * cec_auto_audio: frame parser and injection loop

    A shallow embedding of [src/cec_auto_audio.py].

    - Python [str] values are lists of Unicode code points ([pystr]).
    - Python [int] values are [Z].
    - Readings of [time.time()] are rationals ([Q], in seconds), added and
      subtracted exactly: the rounding of binary floating point is not
      modelled. The two time constants 0.5 and 3.0 are exact in both worlds.
    - The body of [main]'s [for line in proc.stdout] loop is a function of the
      engine state and of what the iteration reads from its environment: the
      line, the clock, and whether the pipe to cec-client accepts a write.
      What the iteration prints or writes is returned as a list of effects;
      the text of a log message is abstracted to its kind and arguments.
      The shutdown of [main]'s [finally] block is not part of the model. *)

From Stdlib Require Import List ZArith NArith QArith Bool Lia Lqa String Ascii.
Import ListNotations.

Open Scope Z_scope.

(** ** Python strings *)

Definition pystr := list N.

(** A string literal, as code points. *)
Definition str (s : string) : pystr := map N_of_ascii (list_ascii_of_string s).

Definition colon : N := 58%N.
Definition gt_sign : N := 62%N.

Definition in_range (lo hi c : N) : bool := (lo <=? c)%N && (c <=? hi)%N.

(** The class [[0-9A-Fa-f]]. *)
Definition is_hex (c : N) : bool :=
  in_range 48 57 c || in_range 65 70 c || in_range 97 102 c.

(** The class [[0-9A-Fa-f:]]. *)
Definition is_hex_or_colon (c : N) : bool := is_hex c || (c =? colon)%N.

(** [\s] of a [str] pattern: the code points for which [str.isspace] holds. *)
Definition is_space (c : N) : bool :=
  in_range 9 13 c || in_range 28 32 c || (c =? 133)%N || (c =? 160)%N
  || (c =? 5760)%N || in_range 8192 8202 c || (c =? 8232)%N || (c =? 8233)%N
  || (c =? 8239)%N || (c =? 8287)%N || (c =? 12288)%N.

(** Value of one hexadecimal digit. *)
Definition hex_val (c : N) : Z :=
  if in_range 48 57 c then Z.of_N c - 48
  else if in_range 65 70 c then Z.of_N c - 55
  else Z.of_N c - 87.

(** [int(s, 16)] on a string of hexadecimal digits. *)
Definition int16 (s : pystr) : Z :=
  fold_left (fun acc c => acc * 16 + hex_val c) s 0.

(** [s.split(sep)] for a one-character separator. *)
Fixpoint split (sep : N) (s : pystr) : list pystr :=
  match s with
  | [] => [[]]
  | c :: r =>
      if (c =? sep)%N then [] :: split sep r
      else match split sep r with
           | seg :: segs => (c :: seg) :: segs
           | [] => [[c]]
           end
  end.

Definition nonempty (s : pystr) : bool :=
  match s with [] => false | _ :: _ => true end.

(** ** FRAME_RE *)

(** Longest prefix whose characters satisfy [p], and the rest: a greedy
    [p*]. *)
Fixpoint span (p : N -> bool) (s : pystr) : pystr * pystr :=
  match s with
  | [] => ([], [])
  | c :: r =>
      if p c then let '(a, b) := span p r in (c :: a, b) else ([], s)
  end.

(** The three groups of a match; group 3 is [None] when the optional part
    did not take part in the match. *)
Definition groups := (pystr * pystr * option pystr)%type.

(** The optional tail [(?:[:]([0-9A-Fa-f:]+))?] at the start of [s]. *)
Definition match_data (s : pystr) : option pystr :=
  match s with
  | c :: r =>
      if (c =? colon)%N then
        match fst (span is_hex_or_colon r) with
        | [] => None
        | d => Some d
        end
      else None
  | [] => None
  end.

(** [FRAME_RE.match] at the start of [s].  A whitespace character is never a
    hexadecimal digit, so the greedy [\s+] can only succeed with the whole
    run of whitespace; the optional tail is greedy and last in the pattern. *)
Definition FRAME_RE_match (s : pystr) : option groups :=
  match s with
  | c1 :: c2 :: r =>
      if (c1 =? gt_sign)%N && (c2 =? gt_sign)%N then
        match span is_space r with
        | (_ :: _, h1 :: h2 :: c3 :: o1 :: o2 :: t) =>
            if is_hex h1 && is_hex h2 && (c3 =? colon)%N
               && is_hex o1 && is_hex o2
            then Some ([h1; h2], [o1; o2], match_data t)
            else None
        | _ => None
        end
      else None
  | _ => None
  end.

(** [FRAME_RE.search]: the match at the leftmost position that has one. *)
Fixpoint FRAME_RE_search (s : pystr) : option groups :=
  match FRAME_RE_match s with
  | Some g => Some g
  | None =>
      match s with
      | [] => None
      | _ :: r => FRAME_RE_search r
      end
  end.

(** ** parse_frame *)

Definition frame := (Z * Z * Z * list Z)%type.

(** The list [data] built from group 3. *)
Definition data_of (data_raw : option pystr) : list Z :=
  match data_raw with
  | Some ((_ :: _) as raw) => map int16 (filter nonempty (split colon raw))
  | _ => []
  end.

Definition parse_frame (line : pystr) : option frame :=
  match FRAME_RE_search line with
  | None => None
  | Some (g1, g2, g3) =>
      let header := int16 g1 in
      let opcode := int16 g2 in
      let data_raw := g3 in
      let src_la := Z.shiftr header 4 in
      let dst_la := Z.land header 15 in
      let data := data_of data_raw in
      Some (src_la, dst_la, opcode, data)
  end.

(** ** Configuration *)

(** The set [CONSOLE_LAS]; the code only tests membership. *)
Definition CONSOLE_LAS : list Z := [4; 8; 11].

Definition DENON_LA : Z := 5.

Definition PENDING_TIMEOUT_SEC : Q := 1 # 2.

Definition MIN_INJECTION_INTERVAL_SEC : Q := 3 # 1.

Definition DRY_RUN : bool := false.

(** [x in CONSOLE_LAS]. *)
Definition in_CONSOLE_LAS (x : Z) : bool := existsb (Z.eqb x) CONSOLE_LAS.

(** ** Formatting of the physical address *)

Definition hex_digit (d : Z) : N :=
  if d <? 10 then Z.to_N (48 + d) else Z.to_N (87 + d).

Fixpoint hex_digits (fuel : nat) (n : Z) : pystr :=
  match fuel with
  | O => []
  | S fuel' =>
      if n <? 16 then [hex_digit n]
      else hex_digits fuel' (n / 16) ++ [hex_digit (n mod 16)]
  end.

(** [format(n, "x")] for [0 <= n]: lowercase, no padding. *)
Definition format_x (n : Z) : pystr := hex_digits (S (Z.to_nat (Z.log2 n))) n.

(** [format(n, "02x")]: zero-padded to width 2, the sign counting in the
    width. *)
Definition format_02x (n : Z) : pystr :=
  if n <? 0 then 45%N :: format_x (- n)
  else
    let d := format_x n in
    if (List.length d <? 2)%nat then 48%N :: d else d.

(** ** Engine state *)

(** The dict bound to [pending], with its keys [la], [phys], [deadline]. *)
Record Pending := { la : Z; phys : pystr; deadline : Q }.

(** The two local variables of [main] that the loop updates. *)
Record State := { pending : option Pending; last_injection_time : Q }.

(** Lines 108-109. *)
Definition initial : State :=
  {| pending := None; last_injection_time := 0 |}.

(** What one iteration does to the outside world.  [Stdin_write] stands for
    a [proc.stdin.write] and [flush] that both returned. *)
Inductive effect :=
| Print_line (line : pystr)
| Log_detected
| Log_satisfied (la : Z) (phys : pystr)
| Log_console (src_la : Z) (phys : pystr)
| Log_ignored (src_la : Z)
| Log_skipped (la : Z) (phys : pystr)
| Log_dry_run (cmd_str : pystr)
| Log_sending (cmd_str : pystr)
| Stdin_write (text : pystr)
| Log_write_failed (cmd_str : pystr).

(** The commands written to cec-client among some effects. *)
Fixpoint writes (es : list effect) : list pystr :=
  match es with
  | [] => []
  | Stdin_write t :: r => t :: writes r
  | _ :: r => writes r
  end.

(** What one iteration reads from its environment: the next line of
    [proc.stdout], the value [time.time()] returns in that iteration (the
    body calls it at most once), and whether a write to [proc.stdin] would
    succeed ([false]: it raises BrokenPipeError). *)
Record Input := { raw_line : pystr; clock : Q; pipe_ok : bool }.

Inductive flow := Continue | Break.

(** [line.rstrip("\n")]. *)
Definition rstrip_nl (s : pystr) : pystr :=
  rev (snd (span (N.eqb 10) (rev s))).

Definition Qlt_bool (x y : Q) : bool := negb (Qle_bool y x).

Definition cmd_str : pystr := str "tx 15:70:00:00".

Definition clear_pending (st : State) : State :=
  {| pending := None; last_injection_time := last_injection_time st |}.

(** The condition of lines 128-133. *)
Definition is_set_system_audio_mode (f : frame) : bool :=
  let '(src_la, dst_la, opcode, data) := f in
  (src_la =? DENON_LA) && (dst_la =? 15) && (opcode =? 114)
  && match data with d0 :: _ => d0 =? 1 | [] => false end.

(** The condition of line 152. *)
Definition is_active_source (f : frame) : bool :=
  let '(src_la, dst_la, opcode, data) := f in
  (dst_la =? 15) && (opcode =? 130) && (2 <=? List.length data)%nat.

(** Line 153: the two bytes of the physical address, as text. *)
Definition phys_of (data : list Z) : pystr :=
  format_02x (nth 0 data 0) ++ [colon] ++ format_02x (nth 1 data 0).

(** Lines 181-220: the timeout check, with [now] the clock reading of
    line 182. *)
Definition timeout_check (dry_run : bool) (st : State) (now : Q)
    (ok : bool) : State * list effect * flow :=
  match pending st with
  | Some p =>
      if Qle_bool (deadline p) now then
        if Qlt_bool (now - last_injection_time st) MIN_INJECTION_INTERVAL_SEC
        then (clear_pending st, [Log_skipped (la p) (phys p)], Continue)
        else if dry_run
        then (clear_pending st, [Log_dry_run cmd_str], Continue)
        else if ok
        then ({| pending := None; last_injection_time := now |},
              [Log_sending cmd_str; Stdin_write (cmd_str ++ [10%N])],
              Continue)
        else (st, [Log_sending cmd_str; Log_write_failed cmd_str], Break)
      else (st, [], Continue)
  | None => (st, [], Continue)
  end.

(** Lines 116-222: one iteration of the loop. *)
Definition loop_body (dry_run : bool) (st : State) (inp : Input)
    : State * list effect * flow :=
  let line := rstrip_nl (raw_line inp) in
  match parse_frame line with
  | None => (st, [Print_line line], Continue)
  | Some (src_la, dst_la, opcode, data) =>
      if is_set_system_audio_mode (src_la, dst_la, opcode, data) then
        match pending st with
        | Some p =>
            (clear_pending st,
             [Print_line line; Log_detected; Log_satisfied (la p) (phys p)],
             Continue)
        | None => (st, [Print_line line; Log_detected], Continue)
        end
      else if is_active_source (src_la, dst_la, opcode, data) then
        let phys := phys_of data in
        if in_CONSOLE_LAS src_la then
          ({| pending :=
                Some {| la := src_la; phys := phys;
                        deadline := (clock inp + PENDING_TIMEOUT_SEC)%Q |};
              last_injection_time := last_injection_time st |},
           [Print_line line; Log_console src_la phys], Continue)
        else (st, [Print_line line; Log_ignored src_la], Continue)
      else
        let '(st', es, fl) :=
          timeout_check dry_run st (clock inp) (pipe_ok inp) in
        (st', Print_line line :: es, fl)
  end.

(** Lines 114-222: the loop over the lines cec-client prints, until it
    breaks or the lines end.  Between two lines the loop is blocked in the
    read and nothing runs. *)
Fixpoint watch_loop (dry_run : bool) (st : State) (inputs : list Input)
    : State * list effect * flow :=
  match inputs with
  | [] => (st, [], Continue)
  | inp :: rest =>
      match loop_body dry_run st inp with
      | (st1, es1, Break) => (st1, es1, Break)
      | (st1, es1, Continue) =>
          let '(st2, es2, fl) := watch_loop dry_run st1 rest in
          (st2, es1 ++ es2, fl)
      end
  end.

(** An input whose line arrives at clock reading [t], the pipe being open. *)
Definition at_time (t : Q) (l : string) : Input :=
  {| raw_line := str l; clock := t; pipe_ok := true |}.

(** ** Vocabulary of the statements *)

(** The frame an iteration gets from its line (line 120). *)
Definition frame_of (inp : Input) : option frame :=
  parse_frame (rstrip_nl (raw_line inp)).

(** The iteration takes branch 1: its frame is the amplifier's Set System
    Audio Mode (on). *)
Definition is_system_audio_mode_on (inp : Input) : bool :=
  match frame_of inp with
  | Some f => is_set_system_audio_mode f
  | None => false
  end.

(** The iteration takes branch 2 with a source in [CONSOLE_LAS]. *)
Definition is_console_active_source (inp : Input) : bool :=
  match frame_of inp with
  | Some (src_la, dst_la, opcode, data) =>
      negb (is_set_system_audio_mode (src_la, dst_la, opcode, data))
      && is_active_source (src_la, dst_la, opcode, data)
      && in_CONSOLE_LAS src_la
  | None => false
  end.

(** The iteration reaches the timeout check of line 182: its line holds a
    frame that takes neither branch 1 nor branch 2. *)
Definition is_timeout_step (inp : Input) : bool :=
  match frame_of inp with
  | Some f => negb (is_set_system_audio_mode f) && negb (is_active_source f)
  | None => false
  end.

(** The state, the effects and the flow of a result. *)
Definition state_of (r : State * list effect * flow) : State := fst (fst r).
Definition effects_of (r : State * list effect * flow) : list effect :=
  snd (fst r).
Definition flow_of (r : State * list effect * flow) : flow := snd r.

(** The non-empty colon-delimited pieces of group 3: the strings that
    [parse_frame] turns into the elements of [data]. *)
Definition payload_segments (g3 : option pystr) : list pystr :=
  match g3 with
  | Some raw => filter nonempty (split colon raw)
  | None => []
  end.

(** What one iteration can do, row by row: the next state, the commands it
    writes to cec-client, and whether the loop goes on. *)
Inductive transition (dry_run : bool) (st : State) (inp : Input)
  : State -> list pystr -> flow -> Prop :=
| T_keep :
    is_console_active_source inp = false ->
    transition dry_run st inp st [] Continue
| T_confirmed :
    is_system_audio_mode_on inp = true ->
    transition dry_run st inp (clear_pending st) [] Continue
| T_announced src_la dst_la opcode data :
    is_console_active_source inp = true ->
    frame_of inp = Some (src_la, dst_la, opcode, data) ->
    transition dry_run st inp
      {| pending :=
           Some {| la := src_la; phys := phys_of data;
                   deadline := (clock inp + PENDING_TIMEOUT_SEC)%Q |};
         last_injection_time := last_injection_time st |}
      [] Continue
| T_skipped p :
    is_timeout_step inp = true ->
    pending st = Some p ->
    (deadline p <= clock inp)%Q ->
    (clock inp - last_injection_time st < MIN_INJECTION_INTERVAL_SEC)%Q ->
    transition dry_run st inp (clear_pending st) [] Continue
| T_dry_run p :
    dry_run = true ->
    is_timeout_step inp = true ->
    pending st = Some p ->
    (deadline p <= clock inp)%Q ->
    ~ (clock inp - last_injection_time st < MIN_INJECTION_INTERVAL_SEC)%Q ->
    transition dry_run st inp (clear_pending st) [] Continue
| T_injected p :
    dry_run = false ->
    pipe_ok inp = true ->
    is_timeout_step inp = true ->
    pending st = Some p ->
    (deadline p <= clock inp)%Q ->
    ~ (clock inp - last_injection_time st < MIN_INJECTION_INTERVAL_SEC)%Q ->
    transition dry_run st inp
      {| pending := None; last_injection_time := clock inp |}
      [cmd_str ++ [10%N]] Continue
| T_broken p :
    dry_run = false ->
    pipe_ok inp = false ->
    is_timeout_step inp = true ->
    pending st = Some p ->
    (deadline p <= clock inp)%Q ->
    ~ (clock inp - last_injection_time st < MIN_INJECTION_INTERVAL_SEC)%Q ->
    transition dry_run st inp st [] Break.

(** The payload of a frame holds 8-bit bytes only. *)
Definition payload_in_byte_range (f : frame) : Prop :=
  let '(_, _, _, data) := f in Forall (fun b => 0 <= b <= 255) data.

(** A trace line for the header byte [header], with a fixed opcode and
    payload. *)
Definition line_with_header (header : Z) : pystr :=
  str ">> " ++ format_02x header ++ str ":82:10:00".

Definition header_ok (header : Z) : bool :=
  match parse_frame (line_with_header header) with
  | Some (s, d, o, [b0; b1]) =>
      (s =? Z.shiftr header 4) && (d =? Z.land header 15)
      && (o =? 130) && (b0 =? 16) && (b1 =? 0)
  | _ => false
  end.

(** Two characters the frame grammar cannot tell apart: the same character,
    or two hexadecimal digits of the same value (a letter in its two
    cases). *)
Definition same_hex (c d : N) : Prop :=
  c = d \/ (is_hex c = true /\ is_hex d = true /\ hex_val c = hex_val d).

(** The lower-case form of a hexadecimal digit. *)
Definition lower_hex (c : N) : N :=
  if in_range 65 70 c then (c + 32)%N else c.

(** The text of a frame in the trace, as in the docstring of [parse_frame]
    after the [TRAFFIC: [...]] prefix: [>>], a space, the header byte, the
    opcode and the payload bytes, two lower-case digits each, separated by
    colons. *)
Definition trace_line (f : frame) : pystr :=
  let '(src_la, dst_la, opcode, data) := f in
  str ">> " ++ format_02x (src_la * 16 + dst_la) ++ [colon]
  ++ format_02x opcode
  ++ flat_map (fun b => colon :: format_02x b) data.

(** Text that may follow a frame in a line without joining its payload:
    nothing, or text whose first character is neither a hexadecimal digit
    nor a colon. *)
Definition ends_payload (suffix : pystr) : Prop :=
  match suffix with
  | [] => True
  | c :: _ => is_hex_or_colon c = false
  end.

(** The raw lines echoed among some effects (line 118). *)
Fixpoint echoes (es : list effect) : list pystr :=
  match es with
  | [] => []
  | Print_line l :: r => l :: echoes r
  | _ :: r => echoes r
  end.

Definition byte_digits_ok (b : Z) : bool :=
  match format_02x b with
  | [x; y] =>
      (x =? hex_digit (b / 16))%N && (y =? hex_digit (b mod 16))%N
  | _ => false
  end.

(** The frame [parse_frame] builds from the groups of a match
    (lines 66-77). *)
Definition decode (g : option groups) : option frame :=
  match g with
  | None => None
  | Some (g1, g2, g3) =>
      Some (Z.shiftr (int16 g1) 4, Z.land (int16 g1) 15, int16 g2,
            data_of g3)
  end.

(** * Examples *)

Example parse_frame_docstring :
  parse_frame (str "TRAFFIC: [   37491]     >> bf:82:36:00")
  = Some (11, 15, 130, [54; 0]).
Proof. reflexivity. Qed.

Example parse_frame_no_data :
  parse_frame (str "TRAFFIC: [  100]	>> 0F:36") = Some (0, 15, 54, []).
Proof. reflexivity. Qed.

Example parse_frame_noise :
  parse_frame (str "waiting for input") = None.
Proof. reflexivity. Qed.

Example parse_frame_outgoing :
  parse_frame (str "TRAFFIC: [  100]     << 15:70:00:00") = None.
Proof. reflexivity. Qed.

Example format_02x_examples :
  format_02x 54 = str "36" /\ format_02x 0 = str "00"
  /\ format_02x 255 = str "ff" /\ format_02x 4660 = str "1234".
Proof. repeat split. Qed.

Example rstrip_nl_example :
  rstrip_nl (str ">> 0f:36" ++ [10%N; 10%N]) = str ">> 0f:36".
Proof. reflexivity. Qed.

(** Scenario D of the specification. *)
Example scenario_D :
  state_of (loop_body DRY_RUN initial (at_time 1000 ">> bf:82:36:00"))
  = {| pending := Some {| la := 11; phys := str "36:00";
                          deadline := (1000 + (1 # 2))%Q |};
       last_injection_time := 0 |}.
Proof. reflexivity. Qed.

(** * The frame parser *)

Section Parser.

Lemma in_range_spec lo hi c :
  in_range lo hi c = true <-> (lo <= c <= hi)%N.
Proof.
  unfold in_range. rewrite andb_true_iff, !N.leb_le. tauto.
Qed.

Lemma hex_val_range c : is_hex c = true -> 0 <= hex_val c <= 15.
Proof.
  unfold is_hex, hex_val. rewrite !orb_true_iff. intros H.
  destruct (in_range 48 57 c) eqn:E1;
    [apply in_range_spec in E1; lia|].
  destruct (in_range 65 70 c) eqn:E2;
    [apply in_range_spec in E2; lia|].
  destruct H as [[H|H]|H]; try discriminate.
  apply in_range_spec in H. lia.
Qed.

Lemma int16_two h1 h2 : int16 [h1; h2] = hex_val h1 * 16 + hex_val h2.
Proof. unfold int16. simpl. lia. Qed.

(** The high nibble of a two-digit number is its first digit, the low nibble
    its second. *)
Lemma nibbles a b :
  0 <= a <= 15 -> 0 <= b <= 15 ->
  Z.shiftr (a * 16 + b) 4 = a /\ Z.land (a * 16 + b) 15 = b.
Proof.
  intros Ha Hb. split.
  - rewrite Z.shiftr_div_pow2 by lia. change (2 ^ 4) with 16.
    rewrite Z.div_add_l by lia. rewrite Z.div_small by lia. lia.
  - change 15 with (Z.ones 4). rewrite Z.land_ones by lia.
    change (2 ^ 4) with 16. rewrite Z.add_comm, Z.mod_add by lia.
    apply Z.mod_small. lia.
Qed.

Lemma span_fst_forallb p s : forallb p (fst (span p s)) = true.
Proof.
  induction s as [|c r IH]; simpl; [reflexivity|].
  destruct (p c) eqn:E; [|reflexivity].
  destruct (span p r) as [a b]. simpl in *. now rewrite E, IH.
Qed.

(** Splitting a run of hexadecimal digits and colons at the colons leaves
    runs of hexadecimal digits. *)
Lemma split_colon_hex s :
  forallb is_hex_or_colon s = true ->
  Forall (fun seg => forallb is_hex seg = true) (split colon s).
Proof.
  induction s as [|c r IH]; simpl; intros H.
  - repeat constructor.
  - apply andb_true_iff in H. destruct H as [Hc Hr].
    specialize (IH Hr).
    destruct (c =? colon)%N eqn:E.
    + constructor; [reflexivity|assumption].
    + unfold is_hex_or_colon in Hc. rewrite E, orb_false_r in Hc.
      destruct (split colon r) as [|seg segs] eqn:Es.
      * repeat constructor. simpl. now rewrite Hc.
      * inversion IH; subst. constructor; [|assumption].
        simpl. now rewrite Hc.
Qed.

Lemma fold_hex_bounds s : forall acc,
  forallb is_hex s = true -> 0 <= acc ->
  let v := fold_left (fun a c => a * 16 + hex_val c) s acc in
  acc * 16 ^ Z.of_nat (List.length s) <= v
  < (acc + 1) * 16 ^ Z.of_nat (List.length s).
Proof.
  induction s as [|c r IH]; intros acc H Hacc.
  - simpl. lia.
  - simpl in H. apply andb_true_iff in H. destruct H as [Hc Hr].
    pose proof (hex_val_range c Hc) as Hv.
    cbn [fold_left List.length]. cbv zeta in IH.
    specialize (IH (acc * 16 + hex_val c) Hr ltac:(lia)).
    rewrite Nat2Z.inj_succ, Z.pow_succ_r by lia.
    assert (0 < 16 ^ Z.of_nat (List.length r)) by (apply Z.pow_pos_nonneg; lia).
    cbv zeta. nia.
Qed.

(** The value of a run of [k] hexadecimal digits is in [[0, 16^k)]. *)
Lemma int16_bounds s :
  forallb is_hex s = true -> 0 <= int16 s < 16 ^ Z.of_nat (List.length s).
Proof.
  intros H. pose proof (fold_hex_bounds s 0 H ltac:(lia)) as B.
  cbv zeta in B. unfold int16. lia.
Qed.

(** Shape of the groups of a match at the start of a string. *)
Lemma FRAME_RE_match_groups s g1 g2 g3 :
  FRAME_RE_match s = Some (g1, g2, g3) ->
  exists h1 h2 o1 o2 t,
    g1 = [h1; h2] /\ g2 = [o1; o2] /\ g3 = match_data t
    /\ is_hex h1 = true /\ is_hex h2 = true
    /\ is_hex o1 = true /\ is_hex o2 = true.
Proof.
  unfold FRAME_RE_match.
  destruct s as [|c1 [|c2 r]]; try discriminate.
  destruct ((c1 =? gt_sign)%N && (c2 =? gt_sign)%N); [|discriminate].
  destruct (span is_space r) as [[|w ws] rest]; [discriminate|].
  destruct rest as [|h1 [|h2 [|c3 [|o1 [|o2 t]]]]]; try discriminate.
  destruct (is_hex h1) eqn:E1; [|discriminate].
  destruct (is_hex h2) eqn:E2; [|discriminate].
  destruct (c3 =? colon)%N; [|discriminate].
  destruct (is_hex o1) eqn:E3; [|discriminate].
  destruct (is_hex o2) eqn:E4; [|discriminate].
  simpl. intros H. injection H as <- <- <-.
  exists h1, h2, o1, o2, t. repeat split; assumption.
Qed.

Lemma FRAME_RE_search_groups line g1 g2 g3 :
  FRAME_RE_search line = Some (g1, g2, g3) ->
  exists h1 h2 o1 o2 t,
    g1 = [h1; h2] /\ g2 = [o1; o2] /\ g3 = match_data t
    /\ is_hex h1 = true /\ is_hex h2 = true
    /\ is_hex o1 = true /\ is_hex o2 = true.
Proof.
  induction line as [|c r IH]; cbn [FRAME_RE_search].
  - destruct (FRAME_RE_match []) as [g|] eqn:E; [|discriminate].
    intros H. injection H as ->. now apply FRAME_RE_match_groups in E.
  - destruct (FRAME_RE_match (c :: r)) as [g|] eqn:E; [|exact IH].
    intros H. injection H as ->. now apply FRAME_RE_match_groups in E.
Qed.

Lemma match_data_hex_or_colon t raw :
  match_data t = Some raw ->
  raw <> [] /\ forallb is_hex_or_colon raw = true.
Proof.
  unfold match_data. destruct t as [|c r]; [discriminate|].
  destruct (c =? colon)%N; [|discriminate].
  pose proof (span_fst_forallb is_hex_or_colon r) as F.
  destruct (fst (span is_hex_or_colon r)) as [|d ds]; [discriminate|].
  intros H. injection H as <-. split; [discriminate|assumption].
Qed.

Lemma data_of_segments g3 : data_of g3 = map int16 (payload_segments g3).
Proof. destruct g3 as [[|c r]|]; reflexivity. Qed.

Lemma payload_segments_hex t :
  Forall (fun seg => seg <> [] /\ forallb is_hex seg = true)
         (payload_segments (match_data t)).
Proof.
  destruct (match_data t) as [raw|] eqn:E; simpl; [|constructor].
  apply match_data_hex_or_colon in E. destruct E as [_ E].
  pose proof (split_colon_hex raw E) as F.
  rewrite Forall_forall in *. intros seg Hin.
  apply filter_In in Hin. destruct Hin as [Hin Hne].
  split; [|now apply F]. destruct seg; [discriminate|discriminate].
Qed.

Lemma header_ok_all header : 0 <= header <= 255 -> header_ok header = true.
Proof.
  intros H.
  assert (A : forallb header_ok (map Z.of_nat (seq 0 256)) = true)
    by (vm_compute; reflexivity).
  rewrite forallb_forall in A. apply A.
  replace header with (Z.of_nat (Z.to_nat header)) by lia.
  apply in_map, in_seq. lia.
Qed.

End Parser.

(** C4 (amended). Every frame [parse_frame] returns has source and
    destination addresses in [[0,15]] and an opcode in [[0,255]], the header
    and the opcode being written with exactly two hexadecimal digits each, of
    either case. Each payload element is the value of one non-empty
    colon-delimited run of hexadecimal digits of group 3, of any length: it
    is non-negative and below [16^k] for a run of [k] digits, hence in
    [[0,255]] when the run has at most two digits. *)
Theorem parse_frame_ranges line src_la dst_la opcode data :
  parse_frame line = Some (src_la, dst_la, opcode, data) ->
  0 <= src_la <= 15 /\ 0 <= dst_la <= 15 /\ 0 <= opcode <= 255
  /\ exists g1 g2 g3,
       FRAME_RE_search line = Some (g1, g2, g3)
       /\ List.length g1 = 2%nat /\ forallb is_hex g1 = true
       /\ List.length g2 = 2%nat /\ forallb is_hex g2 = true
       /\ data = map int16 (payload_segments g3)
       /\ Forall (fun seg =>
                    seg <> [] /\ forallb is_hex seg = true
                    /\ 0 <= int16 seg < 16 ^ Z.of_nat (List.length seg)
                    /\ ((List.length seg <= 2)%nat -> int16 seg <= 255))
                 (payload_segments g3).
Proof.
  unfold parse_frame.
  destruct (FRAME_RE_search line) as [[[g1 g2] g3]|] eqn:E; [|discriminate].
  destruct (FRAME_RE_search_groups _ _ _ _ E)
    as (h1 & h2 & o1 & o2 & t & -> & -> & -> & H1 & H2 & H3 & H4).
  intros H. injection H as <- <- <- <-.
  pose proof (hex_val_range _ H1). pose proof (hex_val_range _ H2).
  pose proof (hex_val_range _ H3). pose proof (hex_val_range _ H4).
  rewrite !int16_two.
  destruct (nibbles (hex_val h1) (hex_val h2)) as [-> ->]; try assumption.
  repeat split; try lia.
  exists [h1; h2], [o1; o2], (match_data t).
  repeat split; simpl; try (now rewrite ?H1, ?H2, ?H3, ?H4).
  - apply data_of_segments.
  - pose proof (payload_segments_hex t) as F.
    rewrite Forall_forall in *. intros seg Hin.
    destruct (F seg Hin) as [Hne Hhex].
    pose proof (int16_bounds seg Hhex) as B.
    repeat split; try assumption; try lia.
    intros Hlen.
    assert (16 ^ Z.of_nat (List.length seg) <= 16 ^ 2)
      by (apply Z.pow_le_mono_r; lia).
    lia.
Qed.

Lemma parse_frame_ranges_witness :
  0 <= 11 <= 15 /\ 0 <= 15 <= 15 /\ 0 <= 130 <= 255
  /\ exists g1 g2 g3,
       FRAME_RE_search (str ">> bf:82:36:00") = Some (g1, g2, g3)
       /\ List.length g1 = 2%nat /\ forallb is_hex g1 = true
       /\ List.length g2 = 2%nat /\ forallb is_hex g2 = true
       /\ [54; 0] = map int16 (payload_segments g3)
       /\ Forall (fun seg =>
                    seg <> [] /\ forallb is_hex seg = true
                    /\ 0 <= int16 seg < 16 ^ Z.of_nat (List.length seg)
                    /\ ((List.length seg <= 2)%nat -> int16 seg <= 255))
                 (payload_segments g3).
Proof.
  apply (parse_frame_ranges (str ">> bf:82:36:00") 11 15 130 [54; 0]).
  reflexivity.
Defined.

(** C4, as stated, fails: a payload piece of three digits is accepted and
    yields an element above 255. *)
Lemma parse_frame_payload_above_byte :
  parse_frame (str ">> 4f:82:100") = Some (4, 15, 130, [256])
  /\ ~ payload_in_byte_range (4, 15, 130, [256]).
Proof.
  split; [reflexivity|].
  unfold payload_in_byte_range. intros H. inversion H; subst. lia.
Qed.

(** C8. For every line the frame grammar accepts, the header byte read from
    group 1 is in [[0,255]] and [parse_frame] returns the frame whose source
    address is [header >> 4] and whose destination address is
    [header & 0xF]; and every header value in [[0,255]] occurs in such a
    line. *)
Theorem parse_frame_header_nibbles :
  (forall line g1 g2 g3,
      FRAME_RE_search line = Some (g1, g2, g3) ->
      let header := int16 g1 in
      0 <= header <= 255
      /\ parse_frame line
         = Some (Z.shiftr header 4, Z.land header 15, int16 g2, data_of g3))
  /\ (forall header,
        0 <= header <= 255 ->
        parse_frame (line_with_header header)
        = Some (Z.shiftr header 4, Z.land header 15, 130, [16; 0])).
Proof.
  split.
  - intros line g1 g2 g3 E header. split.
    + destruct (FRAME_RE_search_groups _ _ _ _ E)
        as (h1 & h2 & o1 & o2 & t & -> & -> & -> & H1 & H2 & _).
      subst header. rewrite int16_two.
      pose proof (hex_val_range _ H1). pose proof (hex_val_range _ H2). lia.
    + unfold parse_frame. rewrite E. reflexivity.
  - intros header H. apply header_ok_all in H. unfold header_ok in H.
    destruct (parse_frame (line_with_header header))
      as [[[[s d] o] [|b0 [|b1 [|b2 r]]]]|]; try discriminate.
    rewrite !andb_true_iff, !Z.eqb_eq in H.
    destruct H as ((((-> & ->) & ->) & ->) & ->). reflexivity.
Qed.

Lemma parse_frame_header_nibbles_witness :
  (0 <= int16 (str "bf") <= 255
   /\ parse_frame (str "TRAFFIC: [   37491]     >> bf:82:36:00")
      = Some (Z.shiftr (int16 (str "bf")) 4, Z.land (int16 (str "bf")) 15,
              int16 (str "82"), data_of (Some (str "36:00"))))
  /\ parse_frame (line_with_header 191)
     = Some (Z.shiftr 191 4, Z.land 191 15, 130, [16; 0]).
Proof.
  split.
  - apply (proj1 parse_frame_header_nibbles
             (str "TRAFFIC: [   37491]     >> bf:82:36:00")
             (str "bf") (str "82") (Some (str "36:00"))).
    reflexivity.
  - apply (proj2 parse_frame_header_nibbles 191). lia.
Defined.

(** * The watch loop *)

Section Loop.

Variable dry_run : bool.

Lemma Qlt_bool_iff x y : Qlt_bool x y = true <-> (x < y)%Q.
Proof.
  unfold Qlt_bool. rewrite negb_true_iff. split.
  - intros H. apply Qnot_le_lt. intros L.
    apply Qle_bool_iff in L. congruence.
  - intros H. destruct (Qle_bool y x) eqn:E; [|reflexivity].
    apply Qle_bool_iff in E. exfalso. now apply (Qlt_not_le x y).
Qed.

Lemma Qlt_bool_false x y : Qlt_bool x y = false <-> ~ (x < y)%Q.
Proof.
  rewrite <- Qlt_bool_iff. destruct (Qlt_bool x y); split; congruence.
Qed.

Lemma clear_pending_idle st : pending st = None -> clear_pending st = st.
Proof. destruct st as [p l]. simpl. now intros ->. Qed.

(** An iteration whose line is not a frame only echoes the line. *)
Lemma loop_body_noise st inp :
  frame_of inp = None ->
  loop_body dry_run st inp
  = (st, [Print_line (rstrip_nl (raw_line inp))], Continue).
Proof. unfold loop_body, frame_of. now intros ->. Qed.

(** An iteration that takes neither branch runs the timeout check. *)
Lemma loop_body_timeout st inp :
  is_timeout_step inp = true ->
  loop_body dry_run st inp
  = let '(st', es, fl) :=
      timeout_check dry_run st (clock inp) (pipe_ok inp) in
    (st', Print_line (rstrip_nl (raw_line inp)) :: es, fl).
Proof.
  unfold is_timeout_step, loop_body, frame_of.
  destruct (parse_frame (rstrip_nl (raw_line inp)))
    as [[[[s d] o] data]|]; [|discriminate].
  rewrite andb_true_iff, !negb_true_iff. now intros [-> ->].
Qed.

(** The timeout check, row by row. *)
Lemma timeout_check_transition st inp :
  is_timeout_step inp = true ->
  let r := timeout_check dry_run st (clock inp) (pipe_ok inp) in
  transition dry_run st inp (state_of r) (writes (effects_of r)) (flow_of r).
Proof.
  intros Ht.
  assert (Hc : is_console_active_source inp = false).
  { unfold is_timeout_step, is_console_active_source in *.
    destruct (frame_of inp) as [[[[s d] o] data]|]; [|reflexivity].
    apply andb_true_iff in Ht. destruct Ht as [_ Ht].
    apply negb_true_iff in Ht. rewrite Ht. now rewrite andb_false_r. }
  unfold timeout_check.
  destruct (pending st) as [p|] eqn:Ep; [|now apply T_keep].
  destruct (Qle_bool (deadline p) (clock inp)) eqn:Ed; [|now apply T_keep].
  apply Qle_bool_iff in Ed.
  destruct (Qlt_bool _ _) eqn:El.
  - apply Qlt_bool_iff in El. now apply T_skipped with p.
  - apply Qlt_bool_false in El.
    destruct dry_run eqn:Edry; [now apply T_dry_run with p|].
    destruct (pipe_ok inp) eqn:Eok.
    + now apply T_injected with p.
    + now apply T_broken with p.
Qed.

(** Every iteration is one of the rows of [transition]. *)
Lemma loop_body_transition st inp :
  let r := loop_body dry_run st inp in
  transition dry_run st inp (state_of r) (writes (effects_of r)) (flow_of r).
Proof.
  destruct (is_timeout_step inp) eqn:Ht.
  { cbv zeta. rewrite (loop_body_timeout st inp Ht).
    pose proof (timeout_check_transition st inp Ht) as T. cbv zeta in T.
    destruct (timeout_check dry_run st (clock inp) (pipe_ok inp))
      as [[st' es] fl]. exact T. }
  cbv zeta. unfold loop_body.
  unfold is_timeout_step, frame_of in Ht.
  destruct (parse_frame (rstrip_nl (raw_line inp)))
    as [[[[s d] o] data]|] eqn:Ef.
  2:{ apply T_keep. unfold is_console_active_source, frame_of.
      now rewrite Ef. }
  destruct (is_set_system_audio_mode (s, d, o, data)) eqn:Es.
  - assert (Hon : is_system_audio_mode_on inp = true)
      by (unfold is_system_audio_mode_on, frame_of; now rewrite Ef).
    destruct (pending st) as [p|] eqn:Ep.
    + now apply T_confirmed.
    + unfold state_of, effects_of, flow_of. simpl.
      rewrite <- (clear_pending_idle st Ep) at 2. now apply T_confirmed.
  - destruct (is_active_source (s, d, o, data)) eqn:Ea;
      [|simpl in Ht; discriminate].
    destruct (in_CONSOLE_LAS s) eqn:Ec.
    + apply T_announced with d o.
      * unfold is_console_active_source, frame_of.
        now rewrite Ef, Es, Ea, Ec.
      * exact Ef.
    + apply T_keep. unfold is_console_active_source, frame_of.
      rewrite Ef, Es, Ea, Ec. reflexivity.
Qed.

(** [last_injection_time] never decreases: it only moves to a clock reading
    that is at least [MIN_INJECTION_INTERVAL_SEC] after it. *)
Lemma loop_body_last_le st inp :
  (last_injection_time st
   <= last_injection_time (state_of (loop_body dry_run st inp)))%Q.
Proof.
  pose proof (loop_body_transition st inp) as T. cbv zeta in T.
  destruct (loop_body dry_run st inp) as [[st' es] fl].
  unfold state_of, effects_of, flow_of in *. simpl in *.
  inversion T; subst; simpl; try apply Qle_refl.
  unfold MIN_INJECTION_INTERVAL_SEC in *. lra.
Qed.

Lemma watch_loop_last_le inputs : forall st,
  (last_injection_time st
   <= last_injection_time (state_of (watch_loop dry_run st inputs)))%Q.
Proof.
  induction inputs as [|inp rest IH]; intros st; simpl.
  - apply Qle_refl.
  - pose proof (loop_body_last_le st inp) as L.
    destruct (loop_body dry_run st inp) as [[st1 es1] [|]].
    + specialize (IH st1).
      destruct (watch_loop dry_run st1 rest) as [[st2 es2] fl].
      unfold state_of in *. simpl in *. lra.
    + exact L.
Qed.


Lemma writes_app es1 es2 : writes (es1 ++ es2) = writes es1 ++ writes es2.
Proof.
  induction es1 as [|e r IH]; [reflexivity|].
  destruct e; simpl; now rewrite ?IH.
Qed.






End Loop.

(** C7. An Active Source frame (broadcast, opcode 0x82, at least two payload
    bytes) whose source is not in the console set {4, 8, 11} leaves the whole
    state, and so the pending slot, as it was, and the iteration writes no
    command: it echoes the line and logs that the source is ignored. *)
Theorem non_console_active_source_ignored
    (dry_run : bool) (st : State) (inp : Input) (src_la : Z) (data : list Z) :
  frame_of inp = Some (src_la, 15, 130, data) ->
  (2 <= List.length data)%nat ->
  ~ In src_la [4; 8; 11] ->
  let r := loop_body dry_run st inp in
  r = (st, [Print_line (rstrip_nl (raw_line inp)); Log_ignored src_la],
       Continue)
  /\ pending (state_of r) = pending st
  /\ writes (effects_of r) = [].
Proof.
  intros Hf Hlen Hsrc.
  assert (E : loop_body dry_run st inp
              = (st, [Print_line (rstrip_nl (raw_line inp));
                      Log_ignored src_la], Continue)).
  { unfold loop_body. unfold frame_of in Hf. rewrite Hf.
    assert (Es : is_set_system_audio_mode (src_la, 15, 130, data) = false).
    { unfold is_set_system_audio_mode.
      change (130 =? 114) with false. now rewrite !andb_false_r. }
    assert (Ea : is_active_source (src_la, 15, 130, data) = true).
    { unfold is_active_source. apply Nat.leb_le in Hlen.
      now rewrite Hlen. }
    assert (Ec : in_CONSOLE_LAS src_la = false).
    { unfold in_CONSOLE_LAS, CONSOLE_LAS. simpl.
      destruct (Z.eqb_spec src_la 4) as [->|_];
        [exfalso; apply Hsrc; simpl; tauto|].
      destruct (Z.eqb_spec src_la 8) as [->|_];
        [exfalso; apply Hsrc; simpl; tauto|].
      destruct (Z.eqb_spec src_la 11) as [->|_];
        [exfalso; apply Hsrc; simpl; tauto|].
      reflexivity. }
    now rewrite Es, Ea, Ec. }
  cbv zeta. rewrite E. repeat split.
Qed.

Lemma non_console_active_source_ignored_witness :
  let st := {| pending := Some {| la := 4; phys := str "10:00";
                                  deadline := 7 |};
               last_injection_time := 0 |} in
  let inp := at_time 9 ">> 0f:82:00:00" in
  let r := loop_body DRY_RUN st inp in
  r = (st, [Print_line (rstrip_nl (raw_line inp)); Log_ignored 0], Continue)
  /\ pending (state_of r) = pending st
  /\ writes (effects_of r) = [].
Proof.
  intros st inp.
  apply (non_console_active_source_ignored DRY_RUN st inp 0 [0; 0]).
  - reflexivity.
  - simpl. lia.
  - simpl. intros [H|[H|[H|H]]]; try discriminate H. exact H.
Defined.

(** C10. When the timeout check decides to inject and the write to
    cec-client raises BrokenPipeError, the iteration leaves the state as it
    was ([last_injection_time] keeps its value, the pending console is not
    cleared) and breaks out of the loop: the lines that follow are not
    processed. *)
Theorem broken_pipe_keeps_state
    (st : State) (inp : Input) (p : Pending) (rest : list Input) :
  is_timeout_step inp = true ->
  pending st = Some p ->
  (deadline p <= clock inp)%Q ->
  ~ (clock inp - last_injection_time st < MIN_INJECTION_INTERVAL_SEC)%Q ->
  pipe_ok inp = false ->
  let es := [Print_line (rstrip_nl (raw_line inp)); Log_sending cmd_str;
             Log_write_failed cmd_str] in
  loop_body DRY_RUN st inp = (st, es, Break)
  /\ watch_loop DRY_RUN st (inp :: rest) = (st, es, Break).
Proof.
  intros Ht Ep Hd Hl Hok es.
  assert (E : loop_body DRY_RUN st inp = (st, es, Break)).
  { rewrite (loop_body_timeout DRY_RUN st inp Ht).
    unfold timeout_check. rewrite Ep.
    apply Qle_bool_iff in Hd. rewrite Hd.
    apply Qlt_bool_false in Hl. rewrite Hl, Hok. reflexivity. }
  split; [exact E|]. simpl. now rewrite E.
Qed.

Lemma broken_pipe_keeps_state_witness :
  let p := {| la := 4; phys := str "10:00"; deadline := 1000 + (1 # 2) |} in
  let st := {| pending := Some p; last_injection_time := 0 |} in
  let inp := {| raw_line := str ">> 0f:36"; clock := 1001;
                pipe_ok := false |} in
  let es := [Print_line (str ">> 0f:36"); Log_sending cmd_str;
             Log_write_failed cmd_str] in
  loop_body DRY_RUN st inp = (st, es, Break)
  /\ watch_loop DRY_RUN st [inp; at_time 1002 ">> 4f:82:10:00"]
     = (st, es, Break).
Proof.
  intros p st inp.
  apply (broken_pipe_keeps_state st inp p [at_time 1002 ">> 4f:82:10:00"]).
  - reflexivity.
  - reflexivity.
  - unfold Qle. simpl. lia.
  - unfold Qlt. simpl. lia.
  - reflexivity.
Defined.

(** C3. After an iteration at clock [t0] wrote an injection, take the state
    any further run of the loop reaches, whatever happened in between and
    however many pending consoles expired. A timeout check in that state at
    clock [t1], with a pending console whose deadline has passed and
    [t1 - t0 < MIN_INJECTION_INTERVAL_SEC], writes nothing and clears the
    pending console, logging the skip. *)
Theorem rate_limit_after_injection
    (dry_run : bool) (st0 : State) (i0 : Input) (mid : list Input)
    (i1 : Input) (p : Pending) :
  let r0 := loop_body dry_run st0 i0 in
  writes (effects_of r0) <> [] ->
  let st := state_of (watch_loop dry_run (state_of r0) mid) in
  is_timeout_step i1 = true ->
  pending st = Some p ->
  (deadline p <= clock i1)%Q ->
  (clock i1 - clock i0 < MIN_INJECTION_INTERVAL_SEC)%Q ->
  let r1 := loop_body dry_run st i1 in
  r1 = (clear_pending st,
        [Print_line (rstrip_nl (raw_line i1)); Log_skipped (la p) (phys p)],
        Continue)
  /\ writes (effects_of r1) = []
  /\ pending (state_of r1) = None.
Proof.
  intros r0 Hw st Ht Ep Hd Hl.
  assert (L0 : last_injection_time (state_of r0) = clock i0).
  { subst r0. pose proof (loop_body_transition dry_run st0 i0) as T.
    cbv zeta in T.
    destruct (loop_body dry_run st0 i0) as [[st1 es1] fl1].
    unfold state_of, effects_of, flow_of in *. simpl in *.
    inversion T; subst; try congruence. reflexivity. }
  pose proof (watch_loop_last_le dry_run mid (state_of r0)) as L.
  fold st in L. rewrite L0 in L.
  assert (E : loop_body dry_run st i1
              = (clear_pending st,
                 [Print_line (rstrip_nl (raw_line i1));
                  Log_skipped (la p) (phys p)], Continue)).
  { rewrite (loop_body_timeout dry_run st i1 Ht).
    unfold timeout_check. rewrite Ep.
    apply Qle_bool_iff in Hd. rewrite Hd.
    assert (Hs : Qlt_bool (clock i1 - last_injection_time st)
                          MIN_INJECTION_INTERVAL_SEC = true)
      by (apply Qlt_bool_iff; lra).
    now rewrite Hs. }
  cbv zeta. rewrite E. repeat split.
Qed.

Lemma rate_limit_after_injection_witness :
  let st0 := {| pending := Some {| la := 4; phys := str "10:00";
                                   deadline := 1000 + (1 # 2) |};
                last_injection_time := 0 |} in
  let i0 := at_time 1001 ">> 0f:36" in
  let mid := [at_time (1001 + (1 # 10)) ">> 8f:82:20:00"] in
  let i1 := at_time 1002 ">> 0f:36" in
  let st := state_of (watch_loop DRY_RUN
                        (state_of (loop_body DRY_RUN st0 i0)) mid) in
  let r1 := loop_body DRY_RUN st i1 in
  writes (effects_of (loop_body DRY_RUN st0 i0)) = [cmd_str ++ [10%N]]
  /\ r1 = (clear_pending st,
           [Print_line (str ">> 0f:36"); Log_skipped 8 (str "20:00")],
           Continue)
  /\ writes (effects_of r1) = []
  /\ pending (state_of r1) = None.
Proof.
  intros st0 i0 mid i1 st r1. split; [reflexivity|].
  apply (rate_limit_after_injection DRY_RUN st0 i0 mid i1
           {| la := 8; phys := str "20:00";
              deadline := 1001 + (1 # 10) + (1 # 2) |}).
  - discriminate.
  - reflexivity.
  - reflexivity.
  - unfold Qle. simpl. lia.
  - unfold Qlt. simpl. lia.
Defined.

(** C9. [last_injection_time] changes only in an iteration that is not a
    dry run and whose write succeeded, and then becomes that iteration's
    clock reading. With the dry-run flag set, a qualifying timeout (deadline
    passed, rate limit satisfied) logs the command it would send and clears
    the pending console with [last_injection_time] as it was; over a whole
    dry run [last_injection_time] keeps its starting value and nothing is
    written, so one qualifying timeout never rate-limits the next. *)
Theorem dry_run_keeps_last_injection_time :
  (forall dry_run st inp,
      let r := loop_body dry_run st inp in
      last_injection_time (state_of r) <> last_injection_time st ->
      dry_run = false /\ pipe_ok inp = true
      /\ writes (effects_of r) = [cmd_str ++ [10%N]]
      /\ last_injection_time (state_of r) = clock inp)
  /\ (forall st inp p,
        is_timeout_step inp = true ->
        pending st = Some p ->
        (deadline p <= clock inp)%Q ->
        ~ (clock inp - last_injection_time st
           < MIN_INJECTION_INTERVAL_SEC)%Q ->
        loop_body true st inp
        = ({| pending := None;
              last_injection_time := last_injection_time st |},
           [Print_line (rstrip_nl (raw_line inp)); Log_dry_run cmd_str],
           Continue))
  /\ (forall st inputs,
        let r := watch_loop true st inputs in
        last_injection_time (state_of r) = last_injection_time st
        /\ writes (effects_of r) = []
        /\ flow_of r = Continue).
Proof.
  split; [|split].
  - intros dry_run st inp r Hne. subst r.
    pose proof (loop_body_transition dry_run st inp) as T. cbv zeta in T.
    destruct (loop_body dry_run st inp) as [[st1 es1] fl1].
    unfold state_of, effects_of, flow_of in *. simpl in *.
    inversion T; subst; simpl in *; try congruence.
    repeat split; assumption.
  - intros st inp p Ht Ep Hd Hl.
    rewrite (loop_body_timeout true st inp Ht).
    unfold timeout_check. rewrite Ep.
    apply Qle_bool_iff in Hd. rewrite Hd.
    apply Qlt_bool_false in Hl. now rewrite Hl.
  - intros st inputs. revert st.
    induction inputs as [|inp rest IH]; intros st; cbv zeta.
    + simpl. repeat split.
    + simpl. pose proof (loop_body_transition true st inp) as T.
      cbv zeta in T.
      destruct (loop_body true st inp) as [[st1 es1] fl1].
      specialize (IH st1). cbv zeta in IH.
      destruct (watch_loop true st1 rest) as [[st2 es2] fl2].
      unfold state_of, effects_of, flow_of in *. simpl in *.
      destruct IH as (Hl & Hw & ->).
      inversion T; subst; simpl in *; try discriminate;
        rewrite ?writes_app, ?Hw;
        repeat match goal with
               | H : [] = writes _ |- _ => rewrite <- H
               end;
        repeat split; congruence.
Qed.

Lemma dry_run_keeps_last_injection_time_witness :
  let p := {| la := 4; phys := str "10:00"; deadline := 1000 + (1 # 2) |} in
  let st := {| pending := Some p; last_injection_time := 0 |} in
  let inp := at_time 1001 ">> 0f:36" in
  (DRY_RUN = false /\ pipe_ok inp = true
   /\ writes (effects_of (loop_body DRY_RUN st inp)) = [cmd_str ++ [10%N]]
   /\ last_injection_time (state_of (loop_body DRY_RUN st inp)) = clock inp)
  /\ loop_body true st inp
     = ({| pending := None; last_injection_time := 0 |},
        [Print_line (str ">> 0f:36"); Log_dry_run cmd_str], Continue).
Proof.
  intros p st inp. split.
  - apply (proj1 dry_run_keeps_last_injection_time DRY_RUN st inp).
    simpl. discriminate.
  - apply (proj1 (proj2 dry_run_keeps_last_injection_time) st inp p).
    + reflexivity.
    + reflexivity.
    + unfold Qle. simpl. lia.
    + unfold Qlt. simpl. lia.
Defined.








(** C1: the code at a quiet bus. Console 4 announces itself at clock 1000
    and the slot is armed with deadline 1000.5. With no further line the
    loop runs no iteration, so the state stays as it is whatever the time;
    and a line that is not a frame, at any clock reading however late, is
    echoed and skipped before the timeout check: the pending console is
    never cleared and nothing is written. *)
Theorem quiet_bus_keeps_pending :
  let st := state_of (watch_loop DRY_RUN initial
                        [at_time 1000 ">> 4f:82:10:00"]) in
  pending st = Some {| la := 4; phys := str "10:00";
                       deadline := 1000 + (1 # 2) |}
  /\ (forall dry_run, watch_loop dry_run st [] = (st, [], Continue))
  /\ (forall dry_run t ok,
        watch_loop dry_run st
          [{| raw_line := str "waiting for input"; clock := t;
              pipe_ok := ok |}]
        = (st, [Print_line (str "waiting for input")], Continue)).
Proof.
  cbv zeta. repeat split.
Qed.

(** In a dry run two qualifying timeouts one second apart both log the
    command they would send. *)
Example dry_run_successive_timeouts :
  let st := {| pending := Some {| la := 4; phys := str "10:00";
                                  deadline := 1000 + (1 # 2) |};
               last_injection_time := 0 |} in
  watch_loop true st
    [at_time 1001 ">> 0f:36"; at_time (1001 + (1 # 10)) ">> 8f:82:20:00";
     at_time 1002 ">> 0f:36"]
  = ({| pending := None; last_injection_time := 0 |},
     [Print_line (str ">> 0f:36"); Log_dry_run cmd_str;
      Print_line (str ">> 8f:82:20:00"); Log_console 8 (str "20:00");
      Print_line (str ">> 0f:36"); Log_dry_run cmd_str],
     Continue).
Proof. reflexivity. Qed.

(** Scenario C of the specification, at clock readings a real clock gives. *)
Example scenario_C :
  watch_loop DRY_RUN initial
    [at_time 1000 ">> 4f:82:10:00"; at_time (1000 + (1 # 2)) ">> 0f:36";
     at_time (1000 + (6 # 10)) ">> 8f:82:20:00";
     at_time (1000 + (11 # 10)) ">> 0f:36"]
  = ({| pending := None; last_injection_time := 1000 + (1 # 2) |},
     [Print_line (str ">> 4f:82:10:00"); Log_console 4 (str "10:00");
      Print_line (str ">> 0f:36"); Log_sending cmd_str;
      Stdin_write (cmd_str ++ [10%N]);
      Print_line (str ">> 8f:82:20:00"); Log_console 8 (str "20:00");
      Print_line (str ">> 0f:36"); Log_skipped 8 (str "20:00")],
     Continue).
Proof. reflexivity. Qed.

(** * More on the frame parser *)

Section ParserMore.

Lemma FRAME_RE_match_needs_gt c r :
  c <> gt_sign -> FRAME_RE_match (c :: r) = None.
Proof.
  intros H. unfold FRAME_RE_match. destruct r as [|c2 r]; [reflexivity|].
  apply N.eqb_neq in H. now rewrite H.
Qed.

Lemma FRAME_RE_search_skip pre s :
  Forall (fun c => c <> gt_sign) pre ->
  FRAME_RE_search (pre ++ s) = FRAME_RE_search s.
Proof.
  induction 1 as [|c r Hc _ IH]; [reflexivity|].
  cbn [app FRAME_RE_search]. now rewrite (FRAME_RE_match_needs_gt c _ Hc).
Qed.

Lemma split_not_nil sep s : split sep s <> [].
Proof.
  destruct s as [|c r]; simpl; [discriminate|].
  destruct (c =? sep)%N; [discriminate|].
  destruct (split sep r); discriminate.
Qed.

Lemma split_app sep a b :
  split sep (a ++ sep :: b) = split sep a ++ split sep b.
Proof.
  induction a as [|c r IH]; simpl.
  - now rewrite N.eqb_refl.
  - destruct (c =? sep)%N; [now rewrite IH|].
    rewrite IH. pose proof (split_not_nil sep r) as Hne.
    destruct (split sep r) as [|seg segs]; [congruence|reflexivity].
Qed.

Lemma split_no_sep sep s :
  forallb (fun c => negb (c =? sep)%N) s = true -> split sep s = [s].
Proof.
  induction s as [|c r IH]; simpl; [reflexivity|].
  rewrite andb_true_iff, negb_true_iff. intros [-> Hr].
  now rewrite (IH Hr).
Qed.

Lemma int16_snoc s c : int16 (s ++ [c]) = int16 s * 16 + hex_val c.
Proof. unfold int16. now rewrite fold_left_app. Qed.

Lemma int16_leading_zero s : int16 (48%N :: s) = int16 s.
Proof. reflexivity. Qed.

Lemma hex_digit_val d : 0 <= d <= 15 -> hex_val (hex_digit d) = d.
Proof.
  intros H. unfold hex_digit, hex_val.
  destruct (Z.ltb_spec d 10).
  - assert (E : in_range 48 57 (Z.to_N (48 + d)) = true)
      by (apply in_range_spec; lia).
    rewrite E. lia.
  - assert (E1 : in_range 48 57 (Z.to_N (87 + d)) = false).
    { destruct (in_range 48 57 _) eqn:E; [|reflexivity].
      apply in_range_spec in E. lia. }
    assert (E2 : in_range 65 70 (Z.to_N (87 + d)) = false).
    { destruct (in_range 65 70 _) eqn:E; [|reflexivity].
      apply in_range_spec in E. lia. }
    rewrite E1, E2. lia.
Qed.

Lemma hex_digit_is_hex d : 0 <= d <= 15 -> is_hex (hex_digit d) = true.
Proof.
  intros H. unfold hex_digit, is_hex.
  destruct (Z.ltb_spec d 10).
  - assert (E : in_range 48 57 (Z.to_N (48 + d)) = true)
      by (apply in_range_spec; lia).
    now rewrite E.
  - assert (E : in_range 97 102 (Z.to_N (87 + d)) = true)
      by (apply in_range_spec; lia).
    rewrite E. now rewrite !orb_true_r.
Qed.

(** With enough fuel the digits of [n] are hexadecimal digits and read
    back as [n]. *)
Lemma hex_digits_sound fuel : forall n,
  (0 < fuel)%nat ->
  0 <= n < 16 ^ Z.of_nat fuel ->
  int16 (hex_digits fuel n) = n
  /\ forallb is_hex (hex_digits fuel n) = true
  /\ hex_digits fuel n <> [].
Proof.
  induction fuel as [|f IH]; intros n Hf Hn.
  - lia.
  - cbn [hex_digits]. destruct (Z.ltb_spec n 16) as [Hs|Hl].
    + repeat split.
      * unfold int16. simpl. apply hex_digit_val. lia.
      * simpl. rewrite hex_digit_is_hex by lia. reflexivity.
      * discriminate.
    + rewrite Nat2Z.inj_succ, Z.pow_succ_r in Hn by lia.
      assert (Hq : 0 <= n / 16 < 16 ^ Z.of_nat f).
      { split; [apply Z.div_pos; lia|].
        apply Z.div_lt_upper_bound; lia. }
      assert (Hf' : (0 < f)%nat).
      { destruct f; [simpl in Hq; lia|lia]. }
      destruct (IH _ Hf' Hq) as (Hv & Hh & Hne).
      pose proof (Z.mod_pos_bound n 16 ltac:(lia)) as Hm.
      repeat split.
      * rewrite int16_snoc, Hv, hex_digit_val by lia.
        pose proof (Z.div_mod n 16 ltac:(lia)). lia.
      * rewrite forallb_app, Hh. simpl.
        rewrite hex_digit_is_hex by lia. reflexivity.
      * intros E. apply app_eq_nil in E. destruct E as [_ E]. discriminate.
Qed.

Lemma format_x_sound n :
  0 <= n ->
  int16 (format_x n) = n /\ forallb is_hex (format_x n) = true
  /\ format_x n <> [].
Proof.
  intros Hn. unfold format_x. apply hex_digits_sound; [lia|].
  split; [exact Hn|].
  destruct (Z.eq_dec n 0) as [->|Hz]; [reflexivity|].
  rewrite Nat2Z.inj_succ, Z2Nat.id by apply Z.log2_nonneg.
  pose proof (Z.log2_spec n ltac:(lia)) as [_ Hu].
  assert (2 ^ Z.succ (Z.log2 n) <= 16 ^ Z.succ (Z.log2 n)).
  { apply Z.pow_le_mono_l. lia. }
  lia.
Qed.

Lemma format_02x_sound n :
  0 <= n ->
  int16 (format_02x n) = n /\ forallb is_hex (format_02x n) = true
  /\ (2 <= List.length (format_02x n))%nat.
Proof.
  intros Hn. destruct (format_x_sound n Hn) as (Hv & Hh & Hne).
  unfold format_02x. destruct (Z.ltb_spec n 0); [lia|]. cbv zeta.
  destruct (Nat.ltb_spec (List.length (format_x n)) 2) as [Hl|Hl].
  - repeat split.
    + now rewrite int16_leading_zero.
    + simpl. exact Hh.
    + destruct (format_x n); [congruence|simpl; lia].
  - repeat split; assumption.
Qed.

Lemma byte_digits_ok_all b : 0 <= b <= 255 -> byte_digits_ok b = true.
Proof.
  intros H.
  assert (A : forallb byte_digits_ok (map Z.of_nat (seq 0 256)) = true)
    by (vm_compute; reflexivity).
  rewrite forallb_forall in A. apply A.
  replace b with (Z.of_nat (Z.to_nat b)) by lia.
  apply in_map, in_seq. lia.
Qed.

(** A byte is printed as its two nibbles. *)
Lemma format_02x_byte b :
  0 <= b <= 255 ->
  format_02x b = [hex_digit (b / 16); hex_digit (b mod 16)].
Proof.
  intros H. apply byte_digits_ok_all in H. unfold byte_digits_ok in H.
  destruct (format_02x b) as [|x [|y [|z r]]]; try discriminate.
  apply andb_true_iff in H. destruct H as [Hx Hy].
  apply N.eqb_eq in Hx, Hy. now subst.
Qed.

Lemma hex_digit_of_val c :
  is_hex c = true -> hex_digit (hex_val c) = lower_hex c.
Proof.
  unfold is_hex, hex_val, hex_digit, lower_hex. intros H.
  destruct (in_range 48 57 c) eqn:E1.
  - apply in_range_spec in E1.
    assert (E2 : in_range 65 70 c = false).
    { destruct (in_range 65 70 c) eqn:E; [|reflexivity].
      apply in_range_spec in E. lia. }
    rewrite E2. destruct (Z.ltb_spec (Z.of_N c - 48) 10); lia.
  - destruct (in_range 65 70 c) eqn:E2.
    + apply in_range_spec in E2.
      destruct (Z.ltb_spec (Z.of_N c - 55) 10); lia.
    + simpl in H. apply in_range_spec in H.
      destruct (Z.ltb_spec (Z.of_N c - 87) 10); lia.
Qed.

(** Two hexadecimal digits print back in lower case. *)
Lemma format_02x_int16_two h1 h2 :
  is_hex h1 = true -> is_hex h2 = true ->
  format_02x (int16 [h1; h2]) = [lower_hex h1; lower_hex h2].
Proof.
  intros H1 H2. rewrite int16_two.
  pose proof (hex_val_range _ H1) as R1.
  pose proof (hex_val_range _ H2) as R2.
  rewrite format_02x_byte by lia.
  replace ((hex_val h1 * 16 + hex_val h2) / 16) with (hex_val h1)
    by (apply Z.div_unique with (hex_val h2); lia).
  replace ((hex_val h1 * 16 + hex_val h2) mod 16) with (hex_val h2)
    by (apply Z.mod_unique with (hex_val h1); lia).
  now rewrite !hex_digit_of_val.
Qed.

Lemma span_all p s : forallb p s = true -> span p s = (s, []).
Proof.
  induction s as [|c r IH]; simpl; [reflexivity|].
  rewrite andb_true_iff. intros [-> Hr]. now rewrite (IH Hr).
Qed.

Lemma hex_is_hex_or_colon s :
  forallb is_hex s = true -> forallb is_hex_or_colon s = true.
Proof.
  induction s as [|c r IH]; simpl; [reflexivity|].
  rewrite !andb_true_iff. intros [Hc Hr]. unfold is_hex_or_colon.
  rewrite Hc. auto.
Qed.

Lemma hex_no_colon s :
  forallb is_hex s = true ->
  forallb (fun c => negb (c =? colon)%N) s = true.
Proof.
  induction s as [|c r IH]; simpl; [reflexivity|].
  rewrite !andb_true_iff. intros [Hc Hr]. split; [|auto].
  apply negb_true_iff, N.eqb_neq. intros ->. discriminate.
Qed.

(** The text of non-negative numbers joined by colons splits back into the
    texts of the numbers. *)
Lemma split_joined b bs :
  0 <= b -> Forall (fun x => 0 <= x) bs ->
  forallb is_hex_or_colon
    (format_02x b ++ flat_map (fun x => colon :: format_02x x) bs) = true
  /\ split colon
       (format_02x b ++ flat_map (fun x => colon :: format_02x x) bs)
     = map format_02x (b :: bs).
Proof.
  intros Hb Hbs. revert b Hb.
  induction Hbs as [|x xs Hx _ IH]; intros b Hb.
  - destruct (format_02x_sound b Hb) as (_ & Hh & _).
    simpl. rewrite app_nil_r. split.
    + now apply hex_is_hex_or_colon.
    + now apply split_no_sep, hex_no_colon.
  - destruct (format_02x_sound b Hb) as (_ & Hh & _).
    destruct (IH x Hx) as [Ha Hs].
    cbn [flat_map]. rewrite <- app_comm_cons. split.
    + rewrite forallb_app, (hex_is_hex_or_colon _ Hh). simpl.
      exact Ha.
    + rewrite split_app, Hs.
      rewrite (split_no_sep colon (format_02x b)) by now apply hex_no_colon.
      reflexivity.
Qed.

Lemma span_app_stop p s suffix :
  forallb p s = true ->
  match suffix with [] => True | c :: _ => p c = false end ->
  span p (s ++ suffix) = (s, suffix).
Proof.
  intros Hs Hx. induction s as [|c r IH]; simpl.
  - destruct suffix as [|x xs]; [reflexivity|]. simpl. now rewrite Hx.
  - simpl in Hs. apply andb_true_iff in Hs. destruct Hs as [-> Hr].
    now rewrite (IH Hr).
Qed.

Lemma data_of_joined bs suffix :
  Forall (fun x => 0 <= x) bs ->
  ends_payload suffix ->
  data_of (match_data (flat_map (fun x => colon :: format_02x x) bs
                       ++ suffix)) = bs.
Proof.
  intros Hbs Hsuf. destruct Hbs as [|b bs Hb Hbs].
  - simpl. unfold match_data. destruct suffix as [|c r]; [reflexivity|].
    simpl in Hsuf. unfold is_hex_or_colon in Hsuf.
    apply orb_false_iff in Hsuf. destruct Hsuf as [_ ->]. reflexivity.
  - cbn [flat_map]. rewrite <- !app_comm_cons. unfold match_data.
    rewrite N.eqb_refl.
    destruct (split_joined b bs Hb Hbs) as [Ha Hs].
    rewrite (span_app_stop is_hex_or_colon _ suffix Ha Hsuf).
    cbn [fst].
    destruct (format_02x_sound b Hb) as (_ & _ & Hl).
    destruct (format_02x b ++ flat_map (fun x => colon :: format_02x x) bs)
      as [|c r] eqn:E.
    { apply app_eq_nil in E. destruct E as [E _]. rewrite E in Hl.
      simpl in Hl. lia. }
    rewrite data_of_segments. unfold payload_segments. rewrite Hs.
    assert (F : forall l, Forall (fun x => 0 <= x) l ->
                map int16 (filter nonempty (map format_02x l)) = l).
    { induction 1 as [|y ys Hy _ IHl]; [reflexivity|].
      destruct (format_02x_sound y Hy) as (Hv & _ & Hl').
      cbn [map filter].
      destruct (format_02x y) as [|d ds] eqn:Ey; [simpl in Hl'; lia|].
      cbn [nonempty map]. now rewrite IHl, Hv. }
    apply F. now constructor.
Qed.

End ParserMore.

(** X1. Text before the marker is skipped: a prefix without the character
    [>] does not change what [parse_frame] returns, and a line without that
    character is not a frame. *)
Theorem parse_frame_skips_prefix (pre line : pystr) :
  Forall (fun c => c <> gt_sign) pre ->
  parse_frame (pre ++ line) = parse_frame line /\ parse_frame pre = None.
Proof.
  intros H. unfold parse_frame. split.
  - now rewrite FRAME_RE_search_skip.
  - rewrite <- (app_nil_r pre). now rewrite FRAME_RE_search_skip.
Qed.

Lemma parse_frame_skips_prefix_witness :
  parse_frame (str "TRAFFIC: [ 37] " ++ str ">> bf:82:36:00")
  = parse_frame (str ">> bf:82:36:00")
  /\ parse_frame (str "TRAFFIC: [ 37] ") = None.
Proof.
  apply (parse_frame_skips_prefix (str "TRAFFIC: [ 37] ")
           (str ">> bf:82:36:00")).
  repeat (apply Forall_cons; [discriminate|]). apply Forall_nil.
Defined.

(** X2. The payload of [a:b] is the payload of [a] followed by the payload
    of [b]; so a colon at the end, or a doubled colon, adds nothing. *)
Theorem payload_concatenates (a b : pystr) :
  data_of (Some (a ++ colon :: b)) = data_of (Some a) ++ data_of (Some b)
  /\ data_of (Some (a ++ [colon])) = data_of (Some a)
  /\ data_of (Some (a ++ colon :: colon :: b))
     = data_of (Some (a ++ colon :: b)).
Proof.
  assert (E : forall x y,
    data_of (Some (x ++ colon :: y)) = data_of (Some x) ++ data_of (Some y)).
  { intros x y. rewrite !data_of_segments. unfold payload_segments.
    now rewrite split_app, filter_app, map_app. }
  split; [apply E|split].
  - rewrite E. simpl. apply app_nil_r.
  - rewrite !E. change (colon :: b) with ([] ++ colon :: b).
    rewrite (E [] b). reflexivity.
Qed.

(** X3. A non-negative number formatted with [:02x] is a run of at least
    two hexadecimal digits that [int(_, 16)] reads back as the number. *)
Theorem int16_format_02x (n : Z) :
  0 <= n ->
  int16 (format_02x n) = n
  /\ forallb is_hex (format_02x n) = true
  /\ (2 <= List.length (format_02x n))%nat.
Proof. apply format_02x_sound. Qed.

Lemma int16_format_02x_witness :
  int16 (format_02x 4660) = 4660
  /\ forallb is_hex (format_02x 4660) = true
  /\ (2 <= List.length (format_02x 4660))%nat.
Proof. apply (int16_format_02x 4660). lia. Defined.

(** X4. When the first two payload bytes were written with two hexadecimal
    digits each, the physical address text is those digits in lower case,
    joined by a colon. *)
Theorem phys_of_two_digit_bytes (h1 h2 h3 h4 : N) (more : list Z) :
  is_hex h1 = true -> is_hex h2 = true ->
  is_hex h3 = true -> is_hex h4 = true ->
  phys_of (int16 [h1; h2] :: int16 [h3; h4] :: more)
  = [lower_hex h1; lower_hex h2; colon; lower_hex h3; lower_hex h4].
Proof.
  intros H1 H2 H3 H4. unfold phys_of. cbn [nth].
  now rewrite !format_02x_int16_two.
Qed.

Lemma phys_of_two_digit_bytes_witness :
  phys_of (int16 (str "3A") :: int16 (str "0f") :: []) = str "3a:0f".
Proof.
  apply (phys_of_two_digit_bytes 51 65 48 102 []); reflexivity.
Defined.

(** X5. Round trip with the trace format: for addresses in [[0,15]], an
    opcode and payload bytes in [[0,255]], the trace line of the frame
    parses back to the frame, after any prefix without [>] and before any
    text that does not start with a hexadecimal digit or a colon. *)
Theorem parse_frame_trace_line
    (pre suffix : pystr) (src_la dst_la opcode : Z) (data : list Z) :
  Forall (fun c => c <> gt_sign) pre ->
  ends_payload suffix ->
  0 <= src_la <= 15 -> 0 <= dst_la <= 15 -> 0 <= opcode <= 255 ->
  Forall (fun b => 0 <= b <= 255) data ->
  parse_frame (pre ++ trace_line (src_la, dst_la, opcode, data) ++ suffix)
  = Some (src_la, dst_la, opcode, data).
Proof.
  intros Hpre Hsuf Hs Hd Ho Hdata. unfold parse_frame.
  rewrite FRAME_RE_search_skip by assumption.
  unfold trace_line.
  set (header := src_la * 16 + dst_la).
  assert (Hh : 0 <= header <= 255) by (subst header; lia).
  rewrite (format_02x_byte header Hh), (format_02x_byte opcode Ho).
  pose proof (Z.mod_pos_bound header 16 ltac:(lia)) as M1.
  pose proof (Z.mod_pos_bound opcode 16 ltac:(lia)) as M2.
  assert (D1 : 0 <= header / 16 <= 15)
    by (pose proof (Z.div_lt_upper_bound header 16 16 ltac:(lia) ltac:(lia));
        pose proof (Z.div_pos header 16 ltac:(lia) ltac:(lia)); lia).
  assert (D2 : 0 <= opcode / 16 <= 15)
    by (pose proof (Z.div_lt_upper_bound opcode 16 16 ltac:(lia) ltac:(lia));
        pose proof (Z.div_pos opcode 16 ltac:(lia) ltac:(lia)); lia).
  pose proof (hex_digit_is_hex _ D1) as E1.
  pose proof (hex_digit_is_hex (header mod 16) ltac:(lia)) as E2.
  pose proof (hex_digit_is_hex _ D2) as E3.
  pose proof (hex_digit_is_hex (opcode mod 16) ltac:(lia)) as E4.
  assert (Sp : is_space (hex_digit (header / 16)) = false).
  { destruct (is_space _) eqn:E; [|reflexivity]. exfalso.
    revert E E1. unfold is_space, is_hex.
    rewrite !orb_true_iff, !in_range_spec, !N.eqb_eq. lia. }
  rewrite <- !app_assoc.
  set (tail := flat_map (fun b => colon :: format_02x b) data ++ suffix).
  assert (M : FRAME_RE_match
                (str ">> " ++ [hex_digit (header / 16);
                               hex_digit (header mod 16)] ++ [colon]
                 ++ [hex_digit (opcode / 16); hex_digit (opcode mod 16)]
                 ++ tail)
              = Some ([hex_digit (header / 16); hex_digit (header mod 16)],
                      [hex_digit (opcode / 16); hex_digit (opcode mod 16)],
                      match_data tail)).
  { cbn [str list_ascii_of_string map app FRAME_RE_match].
    change (N_of_ascii ">") with gt_sign. rewrite !N.eqb_refl.
    cbn [andb span]. change (is_space (N_of_ascii " ")) with true.
    cbn iota. rewrite Sp. cbn iota. rewrite E1, E2, E3, E4, N.eqb_refl.
    reflexivity. }
  assert (S : forall l g, FRAME_RE_match l = Some g ->
                          FRAME_RE_search l = Some g).
  { intros l g Hm. destruct l; cbn [FRAME_RE_search]; now rewrite Hm. }
  rewrite (S _ _ M).
  rewrite <- !format_02x_byte by assumption.
  destruct (format_02x_sound header ltac:(lia)) as (-> & _).
  destruct (format_02x_sound opcode ltac:(lia)) as (-> & _).
  subst tail. rewrite data_of_joined.
  - subst header. destruct (nibbles src_la dst_la Hs Hd) as [-> ->].
    reflexivity.
  - rewrite Forall_forall in *. intros x Hx. specialize (Hdata x Hx). lia.
  - exact Hsuf.
Qed.

Lemma parse_frame_trace_line_witness :
  parse_frame (str "TRAFFIC: [ 37] " ++ trace_line (11, 15, 130, [54; 0])
               ++ str " (active source)")
  = Some (11, 15, 130, [54; 0]).
Proof.
  apply (parse_frame_trace_line (str "TRAFFIC: [ 37] ")
           (str " (active source)") 11 15 130 [54; 0]).
  - repeat (apply Forall_cons; [discriminate|]). apply Forall_nil.
  - reflexivity.
  - lia.
  - lia.
  - lia.
  - repeat (apply Forall_cons; [lia|]). apply Forall_nil.
Defined.

(** * Letter case *)

Section LetterCase.

Lemma parse_frame_decode line :
  parse_frame line = decode (FRAME_RE_search line).
Proof.
  unfold parse_frame, decode.
  now destruct (FRAME_RE_search line) as [[[g1 g2] g3]|].
Qed.

Lemma hex_other_classes c :
  is_hex c = true ->
  is_space c = false /\ (c =? gt_sign)%N = false /\ (c =? colon)%N = false.
Proof.
  intros H. repeat split.
  - destruct (is_space c) eqn:E; [|reflexivity]. exfalso.
    revert E H. unfold is_space, is_hex.
    rewrite !orb_true_iff, !in_range_spec, !N.eqb_eq. lia.
  - apply N.eqb_neq. intros ->. discriminate.
  - apply N.eqb_neq. intros ->. discriminate.
Qed.

Lemma same_hex_classes c d :
  same_hex c d ->
  is_hex c = is_hex d /\ is_space c = is_space d
  /\ (c =? gt_sign)%N = (d =? gt_sign)%N
  /\ (c =? colon)%N = (d =? colon)%N
  /\ is_hex_or_colon c = is_hex_or_colon d
  /\ hex_val c = hex_val d.
Proof.
  intros [->|(Hc & Hd & Hv)]; [repeat split|].
  destruct (hex_other_classes c Hc) as (S1 & G1 & C1).
  destruct (hex_other_classes d Hd) as (S2 & G2 & C2).
  unfold is_hex_or_colon. rewrite Hc, Hd, S1, S2, G1, G2, C1, C2.
  repeat split. exact Hv.
Qed.

Lemma int16_same s1 s2 : Forall2 same_hex s1 s2 -> int16 s1 = int16 s2.
Proof.
  unfold int16. generalize 0.
  intros acc H. revert acc.
  induction H as [|c d r1 r2 Hcd _ IH]; intros acc; [reflexivity|].
  simpl. destruct (same_hex_classes c d Hcd) as (_ & _ & _ & _ & _ & ->).
  apply IH.
Qed.

Lemma span_same p l1 l2 :
  (forall c d, same_hex c d -> p c = p d) ->
  Forall2 same_hex l1 l2 ->
  Forall2 same_hex (fst (span p l1)) (fst (span p l2))
  /\ Forall2 same_hex (snd (span p l1)) (snd (span p l2)).
Proof.
  intros Hp H. induction H as [|c d r1 r2 Hcd Hr IH]; simpl.
  - split; constructor.
  - rewrite (Hp c d Hcd). destruct (p d).
    + destruct (span p r1) as [a1 b1], (span p r2) as [a2 b2].
      simpl in *. destruct IH. split; [now constructor|assumption].
    + simpl. split; [constructor|now constructor].
Qed.

Lemma split_same l1 l2 :
  Forall2 same_hex l1 l2 ->
  Forall2 (Forall2 same_hex) (split colon l1) (split colon l2).
Proof.
  induction 1 as [|c d r1 r2 Hcd Hr IH]; simpl.
  - repeat constructor.
  - destruct (same_hex_classes c d Hcd) as (_ & _ & _ & -> & _).
    destruct (d =? colon)%N.
    + constructor; [constructor|assumption].
    + inversion IH as [|s1 s2 t1 t2 Hs Ht E1 E2].
      * constructor; [|constructor].
        constructor; [exact Hcd|constructor].
      * constructor; [now constructor|assumption].
Qed.

Lemma segments_same ss1 ss2 :
  Forall2 (Forall2 same_hex) ss1 ss2 ->
  map int16 (filter nonempty ss1) = map int16 (filter nonempty ss2).
Proof.
  induction 1 as [|s1 s2 t1 t2 Hs _ IH]; [reflexivity|].
  simpl. inversion Hs; subst; simpl; [exact IH|].
  rewrite IH. f_equal. apply int16_same. now constructor.
Qed.

Lemma match_data_same t1 t2 :
  Forall2 same_hex t1 t2 ->
  data_of (match_data t1) = data_of (match_data t2).
Proof.
  intros H. unfold match_data.
  inversion H as [|c d r1 r2 Hcd Hr]; subst; [reflexivity|].
  destruct (same_hex_classes c d Hcd) as (_ & _ & _ & -> & _).
  destruct (d =? colon)%N; [|reflexivity].
  assert (Hp : forall x y, same_hex x y ->
                           is_hex_or_colon x = is_hex_or_colon y).
  { intros x y Hxy. now destruct (same_hex_classes x y Hxy)
      as (_ & _ & _ & _ & E & _). }
  destruct (span_same is_hex_or_colon r1 r2 Hp Hr) as [Hf _].
  inversion Hf as [|x y a1 a2 Hxy Ha E1 E2]; [reflexivity|].
  rewrite !data_of_segments. unfold payload_segments.
  apply segments_same, split_same. now constructor.
Qed.

Lemma FRAME_RE_match_same l1 l2 :
  Forall2 same_hex l1 l2 ->
  decode (FRAME_RE_match l1) = decode (FRAME_RE_match l2).
Proof.
  intros H. unfold FRAME_RE_match.
  inversion H as [|c1 d1 r1 r2 H1 Hr1]; subst; [reflexivity|].
  inversion Hr1 as [|c2 d2 r1' r2' H2 Hr2]; subst; [reflexivity|].
  destruct (same_hex_classes c1 d1 H1) as (_ & _ & -> & _).
  destruct (same_hex_classes c2 d2 H2) as (_ & _ & -> & _).
  destruct ((d1 =? gt_sign)%N && (d2 =? gt_sign)%N); [|reflexivity].
  assert (Hp : forall x y, same_hex x y -> is_space x = is_space y).
  { intros x y Hxy. now destruct (same_hex_classes x y Hxy)
      as (_ & E & _). }
  destruct (span_same is_space r1' r2' Hp Hr2) as [Hf Hs].
  destruct (span is_space r1') as [a1 b1], (span is_space r2') as [a2 b2].
  simpl in Hf, Hs.
  inversion Hf; subst; [reflexivity|].
  inversion Hs as [|h1 k1 ? ? E1 T1]; subst; [reflexivity|].
  inversion T1 as [|h2 k2 ? ? E2 T2]; subst; [reflexivity|].
  inversion T2 as [|c3 e3 ? ? E3 T3]; subst; [reflexivity|].
  inversion T3 as [|o1 p1 ? ? E4 T4]; subst; [reflexivity|].
  inversion T4 as [|o2 p2 ? ? E5 T5]; subst; [reflexivity|].
  destruct (same_hex_classes _ _ E1) as (-> & _).
  destruct (same_hex_classes _ _ E2) as (-> & _).
  destruct (same_hex_classes _ _ E3) as (_ & _ & _ & -> & _).
  destruct (same_hex_classes _ _ E4) as (-> & _).
  destruct (same_hex_classes _ _ E5) as (-> & _).
  destruct (is_hex k1 && is_hex k2 && (e3 =? colon)%N
            && is_hex p1 && is_hex p2); [|reflexivity].
  simpl.
  rewrite (int16_same [h1; h2] [k1; k2])
    by (constructor; [exact E1|constructor; [exact E2|constructor]]).
  rewrite (int16_same [o1; o2] [p1; p2])
    by (constructor; [exact E4|constructor; [exact E5|constructor]]).
  now rewrite (match_data_same _ _ T5).
Qed.

Lemma FRAME_RE_search_same l1 l2 :
  Forall2 same_hex l1 l2 ->
  decode (FRAME_RE_search l1) = decode (FRAME_RE_search l2).
Proof.
  induction 1 as [|c d r1 r2 Hcd Hr IH]; [reflexivity|].
  assert (Hm : decode (FRAME_RE_match (c :: r1))
               = decode (FRAME_RE_match (d :: r2)))
    by (apply FRAME_RE_match_same; now constructor).
  cbn [FRAME_RE_search].
  destruct (FRAME_RE_match (c :: r1)) as [[[g1 g2] g3]|],
           (FRAME_RE_match (d :: r2)) as [[[k1 k2] k3]|];
    try discriminate; [exact Hm|exact IH].
Qed.

End LetterCase.

(** X6. The parser does not see the case of hexadecimal digits: two lines
    that differ only in the case of letters a-f, wherever they stand, give
    the same result. *)
Theorem parse_frame_case_insensitive (l1 l2 : pystr) :
  Forall2 same_hex l1 l2 -> parse_frame l1 = parse_frame l2.
Proof.
  intros H. rewrite !parse_frame_decode. now apply FRAME_RE_search_same.
Qed.

Lemma parse_frame_case_insensitive_witness :
  parse_frame (str ">> BF:82:3a:0C") = parse_frame (str ">> bf:82:3A:0c").
Proof.
  apply (parse_frame_case_insensitive (str ">> BF:82:3a:0C")
           (str ">> bf:82:3A:0c")).
  repeat (apply Forall2_cons;
          [first [left; reflexivity | right; repeat split; reflexivity]|]).
  apply Forall2_nil.
Defined.

(** * More on the watch loop *)

Section LoopMore.

Variable dry_run : bool.

(** One iteration writes nothing or the one fixed command. *)
Lemma loop_body_writes st inp :
  writes (effects_of (loop_body dry_run st inp)) = []
  \/ writes (effects_of (loop_body dry_run st inp)) = [cmd_str ++ [10%N]].
Proof.
  pose proof (loop_body_transition dry_run st inp) as T. cbv zeta in T.
  destruct (loop_body dry_run st inp) as [[st' es] fl].
  unfold state_of, effects_of, flow_of in *. simpl in *.
  inversion T; subst; auto.
Qed.

(** One iteration echoes its line, once. *)
Lemma loop_body_echoes st inp :
  echoes (effects_of (loop_body dry_run st inp)) = [rstrip_nl (raw_line inp)].
Proof.
  unfold loop_body, timeout_check.
  destruct (parse_frame (rstrip_nl (raw_line inp)))
    as [[[[s d] o] data]|]; [|reflexivity].
  destruct (is_set_system_audio_mode (s, d, o, data)).
  { destruct (pending st); reflexivity. }
  destruct (is_active_source (s, d, o, data)).
  { destruct (in_CONSOLE_LAS s); reflexivity. }
  destruct (pending st) as [p|]; [|reflexivity].
  destruct (Qle_bool (deadline p) (clock inp)); [|reflexivity].
  destruct (Qlt_bool _ _); [reflexivity|].
  destruct dry_run; [reflexivity|].
  destruct (pipe_ok inp); reflexivity.
Qed.

(** The loop breaks only on a failed write outside a dry run. *)
Lemma loop_body_break st inp :
  flow_of (loop_body dry_run st inp) = Break ->
  dry_run = false /\ pipe_ok inp = false.
Proof.
  pose proof (loop_body_transition dry_run st inp) as T. cbv zeta in T.
  destruct (loop_body dry_run st inp) as [[st' es] fl].
  unfold state_of, effects_of, flow_of in *. simpl in *.
  inversion T; subst; try discriminate. auto.
Qed.

Lemma echoes_app es1 es2 : echoes (es1 ++ es2) = echoes es1 ++ echoes es2.
Proof.
  induction es1 as [|e r IH]; [reflexivity|].
  destruct e; simpl; now rewrite ?IH.
Qed.

(** While every clock reading is within [MIN_INJECTION_INTERVAL_SEC] of
    [last_injection_time], nothing is written. *)
Lemma watch_loop_rate_limited inputs : forall st,
  Forall (fun inp =>
            (clock inp - last_injection_time st
             < MIN_INJECTION_INTERVAL_SEC)%Q) inputs ->
  writes (effects_of (watch_loop dry_run st inputs)) = [].
Proof.
  induction inputs as [|inp rest IH]; intros st Hall; [reflexivity|].
  inversion Hall as [|? ? Hc Hrest]; subst.
  pose proof (loop_body_transition dry_run st inp) as T. cbv zeta in T.
  simpl. destruct (loop_body dry_run st inp) as [[st1 es1] fl1].
  unfold state_of, effects_of, flow_of in *. simpl in *.
  assert (K : writes es1 = []
              /\ (fl1 = Continue ->
                  last_injection_time st1 = last_injection_time st)).
  { inversion T; subst; simpl; auto. contradiction. }
  destruct K as [Hw Hl]. destruct fl1; [|exact Hw].
  specialize (IH st1). rewrite (Hl eq_refl) in IH. specialize (IH Hrest).
  destruct (watch_loop dry_run st1 rest) as [[st2 es2] fl2]. simpl in *.
  now rewrite writes_app, Hw, IH.
Qed.


End LoopMore.

(** X7. Whatever a run of the loop writes to cec-client is the one command
    [tx 15:70:00:00] followed by a newline. *)
Theorem only_the_fixed_command
    (dry_run : bool) (st : State) (inputs : list Input) :
  Forall (fun w => w = str "tx 15:70:00:00" ++ [10%N])
         (writes (effects_of (watch_loop dry_run st inputs))).
Proof.
  revert st. induction inputs as [|inp rest IH]; intros st; [constructor|].
  simpl. pose proof (loop_body_writes dry_run st inp) as W.
  destruct (loop_body dry_run st inp) as [[st1 es1] fl1].
  unfold effects_of in *. simpl in *.
  assert (F : Forall (fun w => w = str "tx 15:70:00:00" ++ [10%N])
                     (writes es1)).
  { destruct W as [->| ->]; repeat constructor. }
  destruct fl1; [|exact F].
  specialize (IH st1).
  destruct (watch_loop dry_run st1 rest) as [[st2 es2] fl2]. simpl in *.
  rewrite writes_app. apply Forall_app. now split.
Qed.

(** X8. In a run whose clock readings all lie within one window shorter
    than [MIN_INJECTION_INTERVAL_SEC], at most one command is written,
    however many consoles announce themselves and time out. *)
Theorem one_injection_per_window
    (dry_run : bool) (st : State) (inputs : list Input) (a : Q) :
  Forall (fun inp => (a <= clock inp)%Q
                     /\ (clock inp < a + MIN_INJECTION_INTERVAL_SEC)%Q)
         inputs ->
  (List.length (writes (effects_of (watch_loop dry_run st inputs))) <= 1)%nat.
Proof.
  revert st. induction inputs as [|inp rest IH]; intros st Hall.
  - simpl. lia.
  - inversion Hall as [|? ? [Ha Hb] Hrest]; subst.
    pose proof (loop_body_transition dry_run st inp) as T. cbv zeta in T.
    pose proof (watch_loop_rate_limited dry_run rest) as R.
    simpl. destruct (loop_body dry_run st inp) as [[st1 es1] fl1].
    unfold state_of, effects_of, flow_of in *. simpl in *.
    specialize (IH st1 Hrest). specialize (R st1).
    destruct (watch_loop dry_run st1 rest) as [[st2 es2] fl2]. simpl in *.
    inversion T; subst; simpl; rewrite ?writes_app;
      repeat match goal with
             | H : [] = writes _ |- _ => rewrite <- H
             | H : [_] = writes _ |- _ => rewrite <- H
             end; simpl; try lia.
    rewrite R; [simpl; lia|].
    rewrite Forall_forall in *. intros j Hj. simpl.
    destruct (Hrest j Hj) as [Hja Hjb]. lra.
Qed.

Lemma one_injection_per_window_witness :
  (List.length
     (writes (effects_of
        (watch_loop DRY_RUN initial
           [at_time 1000 ">> 4f:82:10:00";
            at_time (1000 + (6 # 10)) ">> 0f:36";
            at_time (1000 + (7 # 10)) ">> 8f:82:20:00";
            at_time (1002 + (1 # 2)) ">> 0f:36"]))) <= 1)%nat.
Proof.
  apply (one_injection_per_window DRY_RUN initial _ 1000).
  repeat (apply Forall_cons;
          [split; [unfold Qle; simpl; lia|unfold Qlt; simpl; lia]|]).
  apply Forall_nil.
Defined.



(** X10. The pending console is always one of [CONSOLE_LAS]: if that holds
    of the state a run starts in (as it does of the initial state), it holds
    of the state it ends in. *)
Theorem pending_is_a_console
    (dry_run : bool) (st : State) (inputs : list Input) :
  (forall p, pending st = Some p -> In (la p) [4; 8; 11]) ->
  forall p,
    pending (state_of (watch_loop dry_run st inputs)) = Some p ->
    In (la p) [4; 8; 11].
Proof.
  revert st. induction inputs as [|inp rest IH]; intros st Hst p.
  - unfold state_of. simpl. apply Hst.
  - simpl. pose proof (loop_body_transition dry_run st inp) as T.
    cbv zeta in T.
    destruct (loop_body dry_run st inp) as [[st1 es1] fl1].
    unfold state_of, effects_of, flow_of in *. simpl in *.
    assert (H1 : forall q, pending st1 = Some q -> In (la q) [4; 8; 11]).
    { inversion T as [| |s d o data K F| | | |]; subst; simpl;
        try exact Hst; try discriminate.
      intros q Hq. injection Hq as <-. simpl.
      unfold is_console_active_source in K. rewrite F in K.
      rewrite !andb_true_iff in K. destruct K as [_ K].
      unfold in_CONSOLE_LAS in K. apply existsb_exists in K.
      destruct K as (x & Hx & E). apply Z.eqb_eq in E. now subst. }
    destruct fl1; [|apply H1].
    specialize (IH st1 H1 p).
    destruct (watch_loop dry_run st1 rest) as [[st2 es2] fl2].
    simpl in *. exact IH.
Qed.

Lemma pending_is_a_console_witness :
  pending (state_of (watch_loop DRY_RUN initial
                       [at_time 1000 ">> bf:82:36:00"]))
  = Some {| la := 11; phys := str "36:00"; deadline := 1000 + (1 # 2) |}
  /\ In 11 [4; 8; 11].
Proof.
  split; [reflexivity|].
  refine (pending_is_a_console DRY_RUN initial
            [at_time 1000 ">> bf:82:36:00"] _
            {| la := 11; phys := str "36:00"; deadline := 1000 + (1 # 2) |}
            _).
  - intros p H. discriminate H.
  - reflexivity.
Defined.

(** X11. In a dry run, or while every write succeeds, the loop does not
    break and echoes every line it reads, once and in order, stripped of
    its trailing newlines. *)
Theorem every_line_echoed
    (dry_run : bool) (st : State) (inputs : list Input) :
  dry_run = true \/ Forall (fun inp => pipe_ok inp = true) inputs ->
  flow_of (watch_loop dry_run st inputs) = Continue
  /\ echoes (effects_of (watch_loop dry_run st inputs))
     = map (fun inp => rstrip_nl (raw_line inp)) inputs.
Proof.
  revert st. induction inputs as [|inp rest IH]; intros st H.
  - split; reflexivity.
  - simpl. pose proof (loop_body_echoes dry_run st inp) as E.
    pose proof (loop_body_break dry_run st inp) as B.
    destruct (loop_body dry_run st inp) as [[st1 es1] fl1].
    unfold state_of, effects_of, flow_of in *. simpl in *.
    destruct fl1.
    + assert (H' : dry_run = true
                   \/ Forall (fun inp => pipe_ok inp = true) rest).
      { destruct H as [H|H]; [now left|right]. now inversion H. }
      specialize (IH st1 H').
      destruct (watch_loop dry_run st1 rest) as [[st2 es2] fl2].
      simpl in *. destruct IH as [-> IH]. split; [reflexivity|].
      now rewrite echoes_app, E, IH.
    + destruct (B eq_refl) as [Hd Hp]. exfalso.
      destruct H as [H|H]; [congruence|]. inversion H; congruence.
Qed.

Lemma every_line_echoed_witness :
  flow_of (watch_loop DRY_RUN initial
             [at_time 1000 ">> 4f:82:10:00"; at_time 1001 "noise"])
  = Continue
  /\ echoes (effects_of (watch_loop DRY_RUN initial
               [at_time 1000 ">> 4f:82:10:00"; at_time 1001 "noise"]))
     = map (fun inp => rstrip_nl (raw_line inp))
         [at_time 1000 ">> 4f:82:10:00"; at_time 1001 "noise"].
Proof.
  apply (every_line_echoed DRY_RUN initial
           [at_time 1000 ">> 4f:82:10:00"; at_time 1001 "noise"]).
  right. repeat (apply Forall_cons; [reflexivity|]). apply Forall_nil.
Defined.

(** X12. Lines that are not frames change nothing: a run over such lines
    ends in the state it started in, whatever the clock readings and even
    with a pending console past its deadline, and only echoes the lines. *)
Theorem noise_lines_change_nothing
    (dry_run : bool) (st : State) (inputs : list Input) :
  Forall (fun inp => frame_of inp = None) inputs ->
  watch_loop dry_run st inputs
  = (st, map (fun inp => Print_line (rstrip_nl (raw_line inp))) inputs,
     Continue).
Proof.
  induction 1 as [|inp rest Hn _ IH]; [reflexivity|].
  simpl. rewrite (loop_body_noise dry_run st inp Hn), IH. reflexivity.
Qed.

Lemma noise_lines_change_nothing_witness :
  let st := {| pending := Some {| la := 4; phys := str "10:00";
                                  deadline := 1000 + (1 # 2) |};
               last_injection_time := 0 |} in
  let inputs := [at_time 2000 "waiting for input"; at_time 3000 ""] in
  watch_loop DRY_RUN st inputs
  = (st, map (fun inp => Print_line (rstrip_nl (raw_line inp))) inputs,
     Continue).
Proof.
  intros st inputs.
  apply (noise_lines_change_nothing DRY_RUN st inputs).
  repeat (apply Forall_cons; [reflexivity|]). apply Forall_nil.
Defined.

(** X13. An iteration that writes the command, after any run from a state
    [st], is not a dry run, its write succeeded, its clock reading is at
    least [MIN_INJECTION_INTERVAL_SEC] after [st]'s [last_injection_time],
    and it records that clock reading: from the initial state, whose
    [last_injection_time] is 0.0, nothing is written at a clock reading
    below 3.0. *)
Theorem injection_clock_bound
    (dry_run : bool) (st : State) (l : list Input) (j : Input) :
  let r := loop_body dry_run (state_of (watch_loop dry_run st l)) j in
  writes (effects_of r) <> [] ->
  dry_run = false /\ pipe_ok j = true
  /\ (last_injection_time st + MIN_INJECTION_INTERVAL_SEC <= clock j)%Q
  /\ last_injection_time (state_of r) = clock j
  /\ pending (state_of r) = None.
Proof.
  intros r Hw. subst r.
  pose proof (watch_loop_last_le dry_run l st) as L.
  set (s := state_of (watch_loop dry_run st l)) in *.
  pose proof (loop_body_transition dry_run s j) as T. cbv zeta in T.
  destruct (loop_body dry_run s j) as [[st' es] fl].
  change (state_of (st', es, fl)) with st' in *.
  change (effects_of (st', es, fl)) with es in *.
  change (flow_of (st', es, fl)) with fl in *.
  inversion T; subst;
    try (match goal with H : [] = writes es |- _ =>
           rewrite <- H in Hw; congruence end).
  repeat split; try assumption.
  unfold MIN_INJECTION_INTERVAL_SEC in *. lra.
Qed.

Lemma injection_clock_bound_witness :
  let l := [at_time 1000 ">> 4f:82:10:00"] in
  let j := at_time 1001 ">> 0f:36" in
  let r := loop_body DRY_RUN (state_of (watch_loop DRY_RUN initial l)) j in
  DRY_RUN = false /\ pipe_ok j = true
  /\ (last_injection_time initial + MIN_INJECTION_INTERVAL_SEC <= clock j)%Q
  /\ last_injection_time (state_of r) = clock j
  /\ pending (state_of r) = None.
Proof.
  intros l j.
  apply (injection_clock_bound DRY_RUN initial l j).
  discriminate.
Defined.

(** X14. The timeout check fires from the deadline on, not before: with a
    console pending, an iteration that reaches the check before the
    deadline only echoes its line and leaves the state as it was; one that
    reaches it at or after the deadline empties the slot and goes on,
    whether it injects, skips or only logs, unless its write fails. *)
Theorem timeout_fires_from_deadline
    (dry_run : bool) (st : State) (inp : Input) (p : Pending) :
  is_timeout_step inp = true ->
  pending st = Some p ->
  ((clock inp < deadline p)%Q ->
   loop_body dry_run st inp
   = (st, [Print_line (rstrip_nl (raw_line inp))], Continue))
  /\ ((deadline p <= clock inp)%Q ->
      dry_run = true \/ pipe_ok inp = true ->
      pending (state_of (loop_body dry_run st inp)) = None
      /\ flow_of (loop_body dry_run st inp) = Continue).
Proof.
  intros Ht Ep. rewrite (loop_body_timeout dry_run st inp Ht).
  unfold timeout_check. rewrite Ep. split.
  - intros Hlt.
    assert (E : Qle_bool (deadline p) (clock inp) = false).
    { destruct (Qle_bool _ _) eqn:E; [|reflexivity].
      apply Qle_bool_iff in E. exfalso. now apply (Qlt_not_le _ _ Hlt). }
    now rewrite E.
  - intros Hle Hok. apply Qle_bool_iff in Hle. rewrite Hle.
    destruct (Qlt_bool _ _); [split; reflexivity|].
    destruct dry_run; [split; reflexivity|].
    destruct Hok as [Hok|Hok]; [discriminate|]. rewrite Hok.
    split; reflexivity.
Qed.

Lemma timeout_fires_from_deadline_witness :
  let p := {| la := 4; phys := str "10:00"; deadline := 1000 + (1 # 2) |} in
  let st := {| pending := Some p; last_injection_time := 0 |} in
  loop_body DRY_RUN st (at_time (1000 + (4 # 10)) ">> 0f:36")
  = (st, [Print_line (str ">> 0f:36")], Continue)
  /\ pending (state_of (loop_body DRY_RUN st
                          (at_time (1000 + (1 # 2)) ">> 0f:36"))) = None
  /\ flow_of (loop_body DRY_RUN st (at_time (1000 + (1 # 2)) ">> 0f:36"))
     = Continue.
Proof.
  intros p st. split.
  - apply (proj1 (timeout_fires_from_deadline DRY_RUN st
                    (at_time (1000 + (4 # 10)) ">> 0f:36") p
                    eq_refl eq_refl)).
    unfold Qlt. simpl. lia.
  - apply (proj2 (timeout_fires_from_deadline DRY_RUN st
                    (at_time (1000 + (1 # 2)) ">> 0f:36") p
                    eq_refl eq_refl)).
    + unfold Qle. simpl. lia.
    + right. reflexivity.
Defined.
